(** * recon.nmap: the ThreadedNmap and Searchsploit tasks

    A shallow embedding of [recon/nmap.py].  The two luigi tasks only build
    argument vectors and file names and hand them to the operating system, so
    a run is embedded as the sequence of requests it issues ([effect]) together
    with the way it ends ([outcome]).  Neither task looks at the result of a
    file-system request; a request that fails raises and ends the run at that
    request ([perform_all]).

    Python values are embedded as follows: [str] as [string], one [ascii]
    for one character, which covers the strings of ASCII characters (the
    literals of the two tasks are such, and so is what they build from such
    input); a [dict] as a [gmap], a [set] as a [gset], [bytes] as a list of
    bytes, a list of arguments as [list string].

    Each task is embedded twice: as the list of the requests of a run in
    which no request fails ([run]), and on a directory tree, request by
    request, where the first request that fails ends the run ([run_on]). *)

From Stdlib Require Import ZArith Ascii String List Lia.
From Stdlib.Strings Require Import Byte.
From stdpp Require Import gmap strings list fin_maps.

Open Scope string_scope.
Open Scope list_scope.

(** ** Python string primitives *)

Module PyStr.

(** [sep.join(parts)] *)
Definition join (sep : string) (parts : list string) : string :=
  String.concat sep parts.

(** [s.startswith(p)] *)
Fixpoint startswith (p s : string) : bool :=
  match p, s with
  | EmptyString, _ => true
  | String a p', String b s' => if Ascii.eqb a b then startswith p' s' else false
  | String _ _, EmptyString => false
  end.

(** [s.endswith(p)] *)
Definition endswith (p s : string) : bool :=
  (String.length p <=? String.length s)%nat
  && String.eqb (substring (String.length s - String.length p) (String.length p) s) p.

(** [s.replace(old, new)]: the occurrences of [old] are found from the left
    and do not overlap.  [skip] counts the characters of a match that are
    still to be dropped.  For an empty [old], Python puts [new] before every
    character and at the end. *)
Fixpoint replace_from (old new : string) (skip : nat) (s : string) : string :=
  match s with
  | EmptyString => EmptyString
  | String c s' =>
      match skip with
      | S k => replace_from old new k s'
      | O =>
          if startswith old s
          then new +:+ replace_from old new (String.length old - 1) s'
          else String c (replace_from old new 0 s')
      end
  end.

Fixpoint intersperse (new s : string) : string :=
  match s with
  | EmptyString => new
  | String c s' => new +:+ String c (intersperse new s')
  end.

Definition replace (old new s : string) : string :=
  match old with
  | EmptyString => intersperse new s
  | String _ _ => replace_from old new 0 s
  end.

(** [s[-n:]] for [n > 0]: the last [n] characters, the whole string when it
    is shorter (one [ascii] is one character). *)
Definition last_chars (n : nat) (s : string) : string :=
  substring (String.length s - n) n s.

(** [s.rfind(c)] for a single character; [None] stands for [-1]. *)
Fixpoint rfind (c : ascii) (s : string) : option nat :=
  match s with
  | EmptyString => None
  | String a s' =>
      match rfind c s' with
      | Some i => Some (S i)
      | None => if Ascii.eqb a c then Some 0%nat else None
      end
  end.

(** [s.split(sep)] for a single-character separator. *)
Fixpoint split (sep : ascii) (s : string) : list string :=
  match s with
  | EmptyString => [EmptyString]
  | String c s' =>
      if Ascii.eqb c sep then EmptyString :: split sep s'
      else match split sep s' with
           | w :: ws => String c w :: ws
           | [] => [String c EmptyString]
           end
  end.

(** [c in s] *)
Fixpoint contains (c : ascii) (s : string) : bool :=
  match s with
  | EmptyString => false
  | String a s' => Ascii.eqb a c || contains c s'
  end.

End PyStr.

(** ** Python values and [int()] *)

(** The values of the [threads] parameter that are embedded.  luigi passes a
    command-line value as a [str]; the default is the [int] 10.  [None] and
    the booleans stand for what a caller constructing the task may pass
    besides; other values (floats, bytes, objects) are not embedded. *)
Inductive pyval : Type :=
  | PyNone
  | PyBool (b : bool)
  | PyInt (z : Z)
  | PyStr (s : string).

Inductive exn : Type :=
  | TypeError
  | ValueError
  | FileExistsError
  | NotADirectoryError
  | FileNotFoundError
  | IsADirectoryError.

Inductive res (A : Type) : Type :=
  | Ok (a : A)
  | Raise (e : exn).
Arguments Ok {A} a.
Arguments Raise {A} e.

Module PyInt.

(** The white space that [int()] takes off an ASCII string: tab, line feed,
    vertical tab, form feed, carriage return and space.  (The separators
    28 to 31 are white space for [str.isspace], not for [int()].) *)
Definition is_space (c : ascii) : bool :=
  let n := nat_of_ascii c in
  ((9 <=? n)%nat && (n <=? 13)%nat) || (n =? 32)%nat.

Definition is_digit (c : ascii) : bool :=
  let n := nat_of_ascii c in (48 <=? n)%nat && (n <=? 57)%nat.

Definition digit_value (c : ascii) : Z := Z.of_nat (nat_of_ascii c - 48).

Fixpoint lstrip (s : string) : string :=
  match s with
  | String c s' => if is_space c then lstrip s' else s
  | EmptyString => EmptyString
  end.

Definition reverse (s : string) : string :=
  string_of_list_ascii (List.rev (list_ascii_of_string s)).

Definition strip (s : string) : string := reverse (lstrip (reverse (lstrip s))).

(** Decimal digits, single underscores allowed between two digits.
    [after_digit] tells whether the previous character was a digit. *)
Fixpoint digits (acc : Z) (after_digit : bool) (s : string) : option Z :=
  match s with
  | EmptyString => if after_digit then Some acc else None
  | String c s' =>
      if is_digit c then digits (10 * acc + digit_value c)%Z true s'
      else if Ascii.eqb c "_" then (if after_digit then digits acc false s' else None)
      else None
  end.

(** [sys.int_info.default_max_str_digits]: CPython (3.11, and the releases
    of 3.7 to 3.10 since September 2022) refuses to convert a string of more
    digits; underscores do not count. *)
Definition max_str_digits : Z := 4300.

Definition digit_count (s : string) : Z :=
  Z.of_nat (length (List.filter is_digit (list_ascii_of_string s))).

Definition number (d : string) : option Z :=
  if (max_str_digits <? digit_count d)%Z then None else digits 0%Z false d.

(** [int(s)] for an ASCII [str], in base 10: surrounding white space, an
    optional sign, digits. *)
Definition of_str (s : string) : option Z :=
  match strip s with
  | String "-" d => Z.opp <$> number d
  | String "+" d => number d
  | d => number d
  end.

Definition is_ascii (c : ascii) : bool := (nat_of_ascii c <? 128)%nat.

(** [int(v)] *)
Definition int (v : pyval) : res Z :=
  match v with
  | PyNone => Raise TypeError
  | PyBool b => Ok (if b then 1%Z else 0%Z)
  | PyInt z => Ok z
  | PyStr s => match of_str s with Some z => Ok z | None => Raise ValueError end
  end.

(** The values on which [int] is [int()] to the letter: a [str] has ASCII
    characters only.  (Outside ASCII, [int()] also reads the decimal digits
    and the white space of other scripts.) *)
Definition ascii_only (v : pyval) : bool :=
  match v with
  | PyStr s => forallb is_ascii (list_ascii_of_string s)
  | _ => true
  end.

End PyInt.

(** ** The file system and the requests a task issues *)

#[local] Set Warnings "-register-all".

Module Fs.

(** A directory tree.  The root stands for the directory that relative paths
    start from; an absolute path has its root ["/"] as first part.  A tree
    has no links, and a part [..] is walked as a name like any other: two
    paths are one file only when they have the same parts.  This is the file
    system for the paths that are [proper].  Every directory can be written
    to: there are no permissions. *)
Inductive node : Type :=
  | File (data : list byte)
  | Dir (entries : gmap string node).

(** [Path(s).parts]: the components of [s], empty ones and ["."] dropped, the
    root in front for an absolute path (exactly two leading slashes are kept
    as a root of their own, as POSIX has it). *)
Definition root_of (s : string) : list string :=
  match s with
  | String "/" (String "/" (String "/" _)) => ["/"]
  | String "/" (String "/" _) => ["//"]
  | String "/" _ => ["/"]
  | _ => []
  end.

Definition real_part (c : string) : bool :=
  negb (String.eqb c EmptyString) && negb (String.eqb c ".").

Definition parts (s : string) : list string :=
  root_of s ++ List.filter real_part (PyStr.split "/" s).

(** The parts of a relative path that has no [..]: names of entries, which
    hold no slash. *)
Definition proper (p : list string) : Prop :=
  Forall (fun c => c <> ".." /\ PyStr.contains "/" c = false) p.

(** [str(Path(...))] from the parts. *)
Definition to_str (p : list string) : string :=
  match p with
  | [] => "."
  | r :: rest =>
      if String.eqb r "/" || String.eqb r "//" then r +:+ PyStr.join "/" rest
      else PyStr.join "/" p
  end.

(** The node a path leads to, walking down from [n]. *)
Fixpoint lookup_path (p : list string) (n : node) : option node :=
  match p with
  | [] => Some n
  | c :: p' =>
      match n with
      | Dir es => match es !! c with Some n' => lookup_path p' n' | None => None end
      | File _ => None
      end
  end.

(** [p.is_dir()] *)
Definition is_dir (p : list string) (n : node) : bool :=
  match lookup_path p n with Some (Dir _) => true | _ => false end.

(** [p.mkdir(parents=True, exist_ok=True)]: missing directories along [p]
    are created, existing ones are entered; a regular file in the way raises
    ([FileExistsError] at the last part, [NotADirectoryError] before it). *)
Fixpoint mkdir (p : list string) (n : node) : res node :=
  match n with
  | File _ => Raise (match p with [] => FileExistsError | _ :: _ => NotADirectoryError end)
  | Dir es =>
      match p with
      | [] => Ok n
      | c :: p' =>
          match mkdir p' (match es !! c with Some n' => n' | None => Dir ∅ end) with
          | Ok n' => Ok (Dir (<[c := n']> es))
          | Raise e => Raise e
          end
      end
  end.

(** [p.write_bytes(data)]: the parent has to be a directory and [p] must not
    be one; the file is created or replaced. *)
Fixpoint write_bytes (p : list string) (data : list byte) (n : node) : res node :=
  match p with
  | [] => match n with Dir _ => Raise IsADirectoryError | File _ => Ok (File data) end
  | c :: p' =>
      match n with
      | File _ => Raise NotADirectoryError
      | Dir es =>
          match es !! c with
          | Some n' =>
              match write_bytes p' data n' with
              | Ok n'' => Ok (Dir (<[c := n'']> es))
              | Raise e => Raise e
              end
          | None =>
              match p' with
              | [] => Ok (Dir (<[c := File data]> es))
              | _ :: _ => Raise FileNotFoundError
              end
          end
      end
  end.

End Fs.

(** What a run asks of its environment, in the order it asks. *)
Inductive effect : Type :=
  | LogError (msg : string)                        (* logging.error(msg) *)
  | Mkdir (path : string)                          (* Path(path).mkdir(parents=True, exist_ok=True) *)
  | WriteBytes (path : string) (data : list byte)  (* Path(path).write_bytes(data) *)
  | Run (argv : list string)                       (* subprocess.run(argv, ...) in the calling thread *)
  | PoolMap (max_workers : Z) (jobs : list (list string)).
                                                   (* executor.map(subprocess.run, jobs) and the join *)

(** How a run ends. *)
Inductive outcome : Type :=
  | Returned
  | Raised (e : exn).

(** One request against the tree.  What the spawned tools write is not this
    program's doing and is not part of [perform]. *)
Definition perform (e : effect) (fs : Fs.node) : res Fs.node :=
  match e with
  | Mkdir path => Fs.mkdir (Fs.parts path) fs
  | WriteBytes path data => Fs.write_bytes (Fs.parts path) data fs
  | LogError _ | Run _ | PoolMap _ _ => Ok fs
  end.

(** A failing request raises; nothing after it is issued. *)
Fixpoint perform_all (es : list effect) (fs : Fs.node) : res Fs.node :=
  match es with
  | [] => Ok fs
  | e :: es' =>
      match perform e fs with
      | Ok fs' => perform_all es' fs'
      | Raise x => Raise x
      end
  end.

(** [concurrent.futures.ThreadPoolExecutor(max_workers=n)]: the constructor
    refuses a worker count that is not positive. *)
Definition ThreadPoolExecutor (max_workers : Z) : res Z :=
  if (max_workers <=? 0)%Z then Raise ValueError else Ok max_workers.

(** ** ThreadedNmap *)

Module ThreadedNmap.
Section Task.

(** [recon.config.web_ports], a set of port strings. *)
Variable web_ports : gset string.

(** [output().path] *)
Definition output (target_file : string) : string :=
  target_file +:+ "-nmap-results".

(** The template of [run].  Its third entry is one string: the source has no
    comma between ["PLACEHOLDER-IDX-2"] and ["-n"]. *)
Definition nmap_command : list string :=
  [ "nmap"; "--open"; "PLACEHOLDER-IDX-2-n"; "-sC"; "-T"; "4"; "-sV"; "-Pn";
    "-p"; "PLACEHOLDER-IDX-10"; "-oA" ].

(** The body of the inner loop, on the list [commands]. *)
Definition scan_protocol (target_file target protocol : string) (ports : gset string)
    (commands : list (list string)) : list (list string) :=
  let non_web_ports := PyStr.join "," (elements (ports ∖ web_ports)) in
  if String.eqb non_web_ports EmptyString then commands
  else
    let tmp_cmd := nmap_command in
    let tmp_cmd := <[2%nat := if String.eqb protocol "tcp" then "-sT" else "-sU"]> tmp_cmd in
    let tmp_cmd := <[9%nat := non_web_ports]> tmp_cmd in
    let tmp_cmd := tmp_cmd ++ [output target_file +:+ "/nmap." +:+ target +:+ "-" +:+ protocol] in
    let tmp_cmd := tmp_cmd ++ [target] in
    commands ++ [tmp_cmd].

(** The two loops over [ip_dict.items()] and [protocol_dict.items()]. *)
Definition scan_target (target_file target : string) (protocol_dict : gmap string (gset string))
    (commands : list (list string)) : list (list string) :=
  fold_left (fun commands '(protocol, ports) => scan_protocol target_file target protocol ports commands)
            (map_to_list protocol_dict) commands.

Definition build_commands (target_file : string) (ip_dict : gmap string (gmap string (gset string)))
    : list (list string) :=
  fold_left (fun commands '(target, protocol_dict) => scan_target target_file target protocol_dict commands)
            (map_to_list ip_dict) [].

(** [run], with [ip_dict] the mapping that [pickle.load] returns: the
    requests of a run in which no request fails, and how that run ends. *)
Definition run (threads : pyval) (target_file : string)
    (ip_dict : gmap string (gmap string (gset string))) : list effect * outcome :=
  match PyInt.int threads with
  | Raise TypeError =>
      ([LogError "The value supplied to --threads must be a non-negative integer."], Returned)
  | Raise e => ([], Raised e)
  | Ok n =>
      let threads := Z.abs n in
      let commands := build_commands target_file ip_dict in
      match ThreadPoolExecutor threads with
      | Raise e => ([Mkdir (output target_file)], Raised e)
      | Ok max_workers => ([Mkdir (output target_file); PoolMap max_workers commands], Returned)
      end
  end.

(** [run] on the tree [fs]: the requests made, the tree that is left, and
    how the run ends.  A request that fails is the last one made. *)
Definition run_on (threads : pyval) (target_file : string)
    (ip_dict : gmap string (gmap string (gset string))) (fs : Fs.node)
    : list effect * Fs.node * outcome :=
  match PyInt.int threads with
  | Raise TypeError =>
      ([LogError "The value supplied to --threads must be a non-negative integer."], fs, Returned)
  | Raise e => ([], fs, Raised e)
  | Ok n =>
      let threads := Z.abs n in
      let commands := build_commands target_file ip_dict in
      match Fs.mkdir (Fs.parts (output target_file)) fs with
      | Raise e => ([Mkdir (output target_file)], fs, Raised e)
      | Ok fs1 =>
          match ThreadPoolExecutor threads with
          | Raise e => ([Mkdir (output target_file)], fs1, Raised e)
          | Ok max_workers =>
              ([Mkdir (output target_file); PoolMap max_workers commands], fs1, Returned)
          end
      end
  end.

End Task.
End ThreadedNmap.

(** ** Searchsploit *)

Module Searchsploit.
Section Task.

(** The lookup tool: what [subprocess.run(argv, stderr=subprocess.PIPE)]
    captures on the error stream. *)
Variable searchsploit : list string -> list byte.

(** [output().path] *)
Definition output (target_file : string) : string :=
  target_file +:+ "-searchsploit-results".

(** A name matches the pattern [nmap*.xml]. *)
Definition glob_match (name : string) : bool :=
  PyStr.startswith "nmap" name && PyStr.endswith ".xml" name
  && (8 <=? String.length name)%nat.

(** [entry.stem]: the name up to its last dot, when that dot is neither the
    first nor the last character. *)
Definition stem (name : string) : string :=
  match PyStr.rfind "." name with
  | Some i =>
      if (0 <? i)%nat && (i <? String.length name - 1)%nat then substring 0 i name else name
  | None => name
  end.

(** [str(entry)] for the entry [name] of the directory [dir]. *)
Definition entry_str (dir name : string) : string :=
  Fs.to_str (Fs.parts dir ++ [name]).

(** The target recovered from the stem. *)
Definition target_of (stem : string) : string :=
  PyStr.replace "-udp" EmptyString
    (PyStr.replace "-tcp" EmptyString
      (PyStr.replace "nmap." EmptyString stem)).

(** The file the result of [name] goes to. *)
Definition result_path (target_file name : string) : string :=
  output target_file +:+ "/searchsploit." +:+ target_of (stem name) +:+ "-"
    +:+ PyStr.last_chars 3 (stem name) +:+ ".txt".

(** The body of the loop for one entry. *)
Definition lookup (target_file name : string) : list effect :=
  let argv := ["searchsploit"; "--nmap"; entry_str (ThreadedNmap.output target_file) name] in
  let proc_stderr := searchsploit argv in
  Run argv ::
  match proc_stderr with
  | [] => []
  | _ :: _ => [Mkdir (output target_file); WriteBytes (result_path target_file name) proc_stderr]
  end.

(** [run], with [listing] the names in the directory of the scan results in
    the order the directory is read: the requests of a run in which no
    request fails, and how that run ends. *)
Definition run (target_file : string) (listing : list string) : list effect * outcome :=
  (fold_left (fun trace name => trace ++ lookup target_file name)
             (List.filter glob_match listing) [],
   Returned).

(** The body of the loop for one entry on the tree [fs]: the requests made,
    the tree that is left, and how the body ends.  A request that fails is
    the last one made. *)
Definition lookup_on (target_file name : string) (fs : Fs.node)
    : list effect * Fs.node * outcome :=
  let argv := ["searchsploit"; "--nmap"; entry_str (ThreadedNmap.output target_file) name] in
  let proc_stderr := searchsploit argv in
  match proc_stderr with
  | [] => ([Run argv], fs, Returned)
  | _ :: _ =>
      let requests :=
        [Run argv; Mkdir (output target_file);
         WriteBytes (result_path target_file name) proc_stderr] in
      match Fs.mkdir (Fs.parts (output target_file)) fs with
      | Raise e => ([Run argv; Mkdir (output target_file)], fs, Raised e)
      | Ok fs1 =>
          match Fs.write_bytes (Fs.parts (result_path target_file name)) proc_stderr fs1 with
          | Raise e => (requests, fs1, Raised e)
          | Ok fs2 => (requests, fs2, Returned)
          end
      end
  end.

(** The loop over the entries: an entry whose body raises ends it. *)
Fixpoint run_entries (target_file : string) (entries : list string) (fs : Fs.node)
    : list effect * Fs.node * outcome :=
  match entries with
  | [] => ([], fs, Returned)
  | name :: rest =>
      match lookup_on target_file name fs with
      | (requests, fs1, Returned) =>
          let '(requests', fs2, ending) := run_entries target_file rest fs1 in
          (requests ++ requests', fs2, ending)
      | (requests, fs1, Raised e) => (requests, fs1, Raised e)
      end
  end.

(** [run] on the tree [fs], with [listing] as for [run]. *)
Definition run_on (target_file : string) (listing : list string) (fs : Fs.node)
    : list effect * Fs.node * outcome :=
  run_entries target_file (List.filter glob_match listing) fs.

End Task.
End Searchsploit.

(** ** Reading the commands of a run *)

(** The argument that follows [-oA] in the command of [(host, protocol)]. *)
Definition output_prefix (target_file host protocol : string) : string :=
  ThreadedNmap.output target_file +:+ "/nmap." +:+ host +:+ "-" +:+ protocol.

(** A command is the one of [(host, protocol)]: it scans [host] and writes
    to the prefix of the pair. *)
Definition invocation_of (target_file host protocol : string) (cmd : list string) : Prop :=
  cmd !! 11%nat = Some (output_prefix target_file host protocol) /\ last cmd = Some host.

#[global] Instance invocation_of_dec target_file host protocol cmd :
  Decision (invocation_of target_file host protocol cmd).
Proof. unfold invocation_of. apply _. Defined.

(** The command line of [(host, protocol)] for the port list [port_list]. *)
Definition command (target_file host protocol port_list : string) : list string :=
  [ "nmap"; "--open"; if String.eqb protocol "tcp" then "-sT" else "-sU";
    "-sC"; "-T"; "4"; "-sV"; "-Pn"; "-p"; port_list; "-oA";
    output_prefix target_file host protocol; host ].

(** The port list of an entry. *)
Definition port_list (web_ports ports : gset string) : string :=
  PyStr.join "," (elements (ports ∖ web_ports)).

(** What one pass of the inner loop body adds to [commands]. *)
Definition added (web_ports : gset string) (target_file target protocol : string)
    (ports : gset string) : list (list string) :=
  if String.eqb (port_list web_ports ports) EmptyString then []
  else [command target_file target protocol (port_list web_ports ports)].

(** A port as the data model has it, a numeric string. *)
Definition numeric (p : string) : bool :=
  negb (String.eqb p EmptyString) && forallb PyInt.is_digit (list_ascii_of_string p).

(** What the port list needs of a port: it is not empty and has no comma. *)
Definition port_ok (p : string) : Prop :=
  p <> EmptyString /\ PyStr.contains "," p = false.

(** ** Reading the result files of Searchsploit *)

(** The files a trace writes, in order. *)
Definition writes (trace : list effect) : list (string * list byte) :=
  flat_map (fun e => match e with WriteBytes path data => [(path, data)] | _ => [] end) trace.

(** The argument vector of the lookup of [name]. *)
Definition lookup_argv (target_file name : string) : list string :=
  ["searchsploit"; "--nmap"; Searchsploit.entry_str (ThreadedNmap.output target_file) name].

(** The naming as the specification words it: the prefix [nmap.] is taken
    off the front of the stem and the suffixes [-tcp] and [-udp] off its
    end. *)
Definition removeprefix (p s : string) : string :=
  if PyStr.startswith p s
  then substring (String.length p) (String.length s - String.length p) s else s.

Definition removesuffix (p s : string) : string :=
  if PyStr.endswith p s then substring 0 (String.length s - String.length p) s else s.

Definition spec_target_of (stem : string) : string :=
  removesuffix "-udp" (removesuffix "-tcp" (removeprefix "nmap." stem)).

Definition spec_result_path (target_file name : string) : string :=
  Searchsploit.output target_file +:+ "/searchsploit."
    +:+ spec_target_of (Searchsploit.stem name) +:+ "-"
    +:+ PyStr.last_chars 3 (Searchsploit.stem name) +:+ ".txt".

(** ** The worker pool *)

(** [ThreadPoolExecutor], as [concurrent.futures.thread] of CPython has it,
    as an interleaving of its threads.  The main thread submits the jobs one
    by one ([executor.map]), then leaves the [with] block:
    [shutdown(wait=True)] puts the stop mark on the queue and joins the
    workers.  A submit starts a new worker only below [max_workers]; it may
    reuse the workers there are once there is one.  A worker takes the head
    of the queue: a job, which it runs to its end ([subprocess.run] returns
    or raises, nobody looks), or the stop mark, which it puts back for the
    others before it exits. *)
Module Pool.

Inductive item : Type :=
  | Work (cmd : list string)
  | Stop.

Inductive worker : Type :=
  | Idle
  | Busy (cmd : list string)
  | Exited.

Inductive phase : Type :=
  | Mapping     (* in executor.map, submitting *)
  | Joining     (* in shutdown(wait=True) *)
  | Done.       (* past the with block: run returns *)

Record state : Type := State {
  todo : list (list string);      (* jobs not yet submitted *)
  queue : list item;              (* the work queue, first in first out *)
  workers : list worker;          (* the threads started so far *)
  at_phase : phase
}.

Definition init (jobs : list (list string)) : state :=
  State jobs [] [] Mapping.

(** What is seen of the pool from the place of the scan tool. *)
Inductive event : Type :=
  | Started (cmd : list string)   (* subprocess.run(cmd) is called *)
  | Ended (cmd : list string).    (* that call is over *)

(** The moves of the threads.  Which move comes next is up to the scheduler,
    and a [Finish] is up to the scan that is running. *)
Inductive action : Type :=
  | Submit (spawn : bool)   (* main thread: the next job goes on the queue; a worker is started or not *)
  | Shutdown                (* main thread: map is over, the stop mark goes on the queue *)
  | Take (i : nat)          (* worker i takes the head of the queue *)
  | Finish (i : nat)        (* the job of worker i is over *)
  | Join.                   (* main thread: every worker has exited, the with block is left *)

Definition is_exited (w : worker) : bool :=
  match w with Exited => true | _ => false end.

(** One move: the events it shows and the state after it, [None] when the
    move is not possible in [s]. *)
Definition step (max_workers : Z) (a : action) (s : state) : option (list event * state) :=
  match a with
  | Submit spawn =>
      match at_phase s, todo s with
      | Mapping, c :: td =>
          if spawn then
            if (Z.of_nat (length (workers s)) <? max_workers)%Z
            then Some ([], State td (queue s ++ [Work c]) (workers s ++ [Idle]) Mapping)
            else None
          else
            match workers s with
            | [] => None
            | _ :: _ => Some ([], State td (queue s ++ [Work c]) (workers s) Mapping)
            end
      | _, _ => None
      end
  | Shutdown =>
      match at_phase s, todo s with
      | Mapping, [] => Some ([], State [] (queue s ++ [Stop]) (workers s) Joining)
      | _, _ => None
      end
  | Take i =>
      match workers s !! i, queue s with
      | Some Idle, Work c :: q =>
          Some ([Started c], State (todo s) q (<[i := Busy c]> (workers s)) (at_phase s))
      | Some Idle, Stop :: q =>
          Some ([], State (todo s) (q ++ [Stop]) (<[i := Exited]> (workers s)) (at_phase s))
      | _, _ => None
      end
  | Finish i =>
      match workers s !! i with
      | Some (Busy c) =>
          Some ([Ended c], State (todo s) (queue s) (<[i := Idle]> (workers s)) (at_phase s))
      | _ => None
      end
  | Join =>
      match at_phase s with
      | Joining =>
          if forallb is_exited (workers s)
          then Some ([], State (todo s) (queue s) (workers s) Done)
          else None
      | _ => None
      end
  end.

(** The moves of a schedule, one after the other: the events in the order
    they show, and the state reached. *)
Fixpoint exec (max_workers : Z) (sched : list action) (s : state)
    : option (list event * state) :=
  match sched with
  | [] => Some ([], s)
  | a :: sched' =>
      match step max_workers a s with
      | Some (evs, s1) =>
          match exec max_workers sched' s1 with
          | Some (evs', s2) => Some (evs ++ evs', s2)
          | None => None
          end
      | None => None
      end
  end.

(** The moves case by case, as a relation: [step_cases] shows that it is
    [step]. *)
Inductive step_case (n : Z) : action -> state -> list event -> state -> Prop :=
  | submit_spawn c td q ws :
      (Z.of_nat (length ws) < n)%Z ->
      step_case n (Submit true) (State (c :: td) q ws Mapping) []
                  (State td (q ++ [Work c]) (ws ++ [Idle]) Mapping)
  | submit_queue c td q ws :
      ws <> [] ->
      step_case n (Submit false) (State (c :: td) q ws Mapping) []
                  (State td (q ++ [Work c]) ws Mapping)
  | shutdown q ws :
      step_case n Shutdown (State [] q ws Mapping) [] (State [] (q ++ [Stop]) ws Joining)
  | take_work i c td q ws ph :
      ws !! i = Some Idle ->
      step_case n (Take i) (State td (Work c :: q) ws ph) [Started c]
                  (State td q (<[i := Busy c]> ws) ph)
  | take_stop i td q ws ph :
      ws !! i = Some Idle ->
      step_case n (Take i) (State td (Stop :: q) ws ph) []
                  (State td (q ++ [Stop]) (<[i := Exited]> ws) ph)
  | finish i c td q ws ph :
      ws !! i = Some (Busy c) ->
      step_case n (Finish i) (State td q ws ph) [Ended c]
                  (State td q (<[i := Idle]> ws) ph)
  | join td q ws :
      Forall (fun w => w = Exited) ws ->
      step_case n Join (State td q ws Joining) [] (State td q ws Done).

(** The commands that events start, and those they end, in order. *)
Definition started (evs : list event) : list (list string) :=
  flat_map (fun e => match e with Started c => [c] | Ended _ => [] end) evs.

Definition ended (evs : list event) : list (list string) :=
  flat_map (fun e => match e with Ended c => [c] | Started _ => [] end) evs.

(** The jobs a list of workers is running. *)
Definition busy (ws : list worker) : list (list string) :=
  flat_map (fun w => match w with Busy c => [c] | _ => [] end) ws.

(** The jobs waiting in a queue. *)
Definition waiting (q : list item) : list (list string) :=
  flat_map (fun x => match x with Work c => [c] | Stop => [] end) q.

(** The number of scans executing in a state. *)
Definition running (s : state) : nat := length (busy (workers s)).

(** A move of the pool itself, not the end of a scan. *)
Definition own (a : action) : bool :=
  match a with Finish _ => false | _ => true end.

(** What holds of the events shown so far and of the state, all along. *)
Record inv (max_workers : Z) (jobs : list (list string)) (evs : list event) (s : state)
    : Prop := Inv {
  inv_bound : (Z.of_nat (length (workers s)) <= max_workers)%Z;
  inv_jobs : todo s ++ waiting (queue s) ++ started evs ≡ₚ jobs;
  inv_busy : started evs ≡ₚ busy (workers s) ++ ended evs;
  inv_mapping : at_phase s = Mapping -> exists cs, queue s = List.map Work cs;
  inv_stopped : at_phase s <> Mapping ->
                todo s = [] /\ exists cs, queue s = List.map Work cs ++ [Stop];
  inv_exited : Exited ∈ workers s -> queue s = [Stop];
  inv_spawned : workers s = [] -> waiting (queue s) = [];
  inv_done : at_phase s = Done -> Forall (fun w => w = Exited) (workers s)
}.

(** A measure that every move lowers. *)
Definition worker_weight (w : worker) : nat :=
  match w with Idle => 1 | Busy _ => 3 | Exited => 0 end.

Definition phase_weight (ph : phase) : nat :=
  match ph with Mapping => 2 | Joining => 1 | Done => 0 end.

Definition measure (s : state) : nat :=
  5 * length (todo s) + 3 * length (waiting (queue s))
  + list_sum (List.map worker_weight (workers s)) + phase_weight (at_phase s).

End Pool.

(** The executions that the request of a pool stands for: the pool of
    [max_workers] threads on [jobs], under a schedule. *)
Definition pool_exec (e : effect) (sched : list Pool.action)
    : option (list Pool.event * Pool.state) :=
  match e with
  | PoolMap max_workers jobs => Pool.exec max_workers sched (Pool.init jobs)
  | _ => None
  end.

(** ** Reading a whole run *)

(** The output prefixes of a list of commands, in order. *)
Definition prefixes (cmds : list (list string)) : list (option string) :=
  List.map (fun cmd : list string => cmd !! 11%nat) cmds.


(** The protocols of the data model. *)
Definition transport (protocol : string) : Prop :=
  protocol = "tcp" \/ protocol = "udp".

(** ** The scenarios of the specification *)

Module Scenario.

Definition web_ports : gset string := {["80"; "443"]}.

Definition ssh_and_web : gmap string (gmap string (gset string)) :=
  {[ "10.10.10.1" := {[ "tcp" := ({["22"; "80"; "443"]} : gset string) ]} ]}.

Definition web_only : gmap string (gmap string (gset string)) :=
  {[ "10.10.10.1" := {[ "tcp" := ({["80"]} : gset string) ]} ]}.

(** A lookup tool that reports on TCP results and is silent on the others. *)
Definition lookup_tool (argv : list string) : list byte :=
  match argv with
  | [_; _; path] => if PyStr.endswith "-tcp.xml" path then [x45; x52; x52]%byte else []
  | _ => []
  end.

Definition listing : list string :=
  ["nmap.10.10.10.155-tcp.xml"; "nmap.10.10.10.155-udp.xml"; "targets.txt"].

(** Two hosts, three pairs with ports that are not web ports. *)
Definition two_hosts : gmap string (gmap string (gset string)) :=
  {[ "10.10.10.1" := {[ "tcp" := ({["22"; "80"; "443"]} : gset string);
                        "udp" := ({["161"]} : gset string) ]};
     "10.10.10.2" := {[ "tcp" := ({["8080"]} : gset string) ]} ]}.

(** A schedule of a pool of two workers on three jobs: the first two jobs
    run side by side, the third takes the place of the first. *)
Definition schedule : list Pool.action :=
  [ Pool.Submit true; Pool.Submit true; Pool.Take 0; Pool.Take 1; Pool.Submit false;
    Pool.Finish 0; Pool.Take 0; Pool.Shutdown; Pool.Finish 1; Pool.Take 1;
    Pool.Finish 0; Pool.Take 0; Pool.Join ].

End Scenario.

(** * Properties *)

(** ** The primitives on examples *)

Example replace_ex1 : PyStr.replace "ab" EmptyString "xabyababz" = "xyz".
Proof. reflexivity. Qed.
Example replace_ex2 : PyStr.replace "aa" "b" "aaa" = "ba".
Proof. reflexivity. Qed.
Example replace_ex3 : PyStr.replace EmptyString "-" "abc" = "-a-b-c-".
Proof. reflexivity. Qed.
Example split_ex1 : PyStr.split "," "a,b," = ["a"; "b"; EmptyString].
Proof. reflexivity. Qed.
Example last_ex1 : PyStr.last_chars 3 "nmap.h-tcp" = "tcp" /\ PyStr.last_chars 3 "ab" = "ab".
Proof. split; reflexivity. Qed.
Example ends_ex1 : PyStr.endswith ".xml" "nmap.xml" = true /\ PyStr.endswith ".xml" "xml" = false.
Proof. split; reflexivity. Qed.

Example int_ex1 : PyInt.int (PyStr " -12_0 ") = Ok (-120)%Z.
Proof. reflexivity. Qed.
Example int_ex2 : PyInt.int (PyStr "abc") = Raise ValueError.
Proof. reflexivity. Qed.
Example int_ex3 : PyInt.int (PyStr "1__0") = Raise ValueError /\ PyInt.int (PyStr "+ 1") = Raise ValueError
  /\ PyInt.int (PyStr EmptyString) = Raise ValueError /\ PyInt.int (PyStr "007") = Ok 7%Z.
Proof. repeat split; reflexivity. Qed.

Example int_ex4 :
  PyInt.int (PyStr (String (ascii_of_nat 28) "5")) = Raise ValueError
  /\ PyInt.int (PyStr (String (ascii_of_nat 9) "5")) = Ok 5%Z.
Proof. split; reflexivity. Qed.
Lemma int_digit_limit d :
  (PyInt.max_str_digits < PyInt.digit_count d)%Z -> PyInt.number d = None.
Proof. unfold PyInt.number. intros H%Z.ltb_lt. by rewrite H. Qed.

Example scenario_ssh_and_web :
  ThreadedNmap.build_commands Scenario.web_ports "htb-targets" Scenario.ssh_and_web
  = [[ "nmap"; "--open"; "-sT"; "-sC"; "-T"; "4"; "-sV"; "-Pn"; "-p"; "22"; "-oA";
       "htb-targets-nmap-results/nmap.10.10.10.1-tcp"; "10.10.10.1" ]].
Proof. vm_compute. reflexivity. Qed.

Example scenario_web_only :
  ThreadedNmap.build_commands Scenario.web_ports "htb-targets" Scenario.web_only = [].
Proof. vm_compute. reflexivity. Qed.

Example scenario_lookup :
  Searchsploit.run Scenario.lookup_tool "htb-targets" Scenario.listing
  = ([ Run ["searchsploit"; "--nmap"; "htb-targets-nmap-results/nmap.10.10.10.155-tcp.xml"];
       Mkdir "htb-targets-searchsploit-results";
       WriteBytes "htb-targets-searchsploit-results/searchsploit.10.10.10.155-tcp.txt"
                  [x45; x52; x52]%byte;
       Run ["searchsploit"; "--nmap"; "htb-targets-nmap-results/nmap.10.10.10.155-udp.xml"] ],
     Returned).
Proof. vm_compute. reflexivity. Qed.

Example scenario_lookup_on :
  Searchsploit.run_on Scenario.lookup_tool "htb-targets" Scenario.listing
    (Fs.Dir {[ "htb-targets-searchsploit-results" := Fs.File [] ]})
  = ([ Run ["searchsploit"; "--nmap"; "htb-targets-nmap-results/nmap.10.10.10.155-tcp.xml"];
       Mkdir "htb-targets-searchsploit-results" ],
     Fs.Dir {[ "htb-targets-searchsploit-results" := Fs.File [] ]},
     Raised FileExistsError).
Proof. vm_compute. reflexivity. Qed.

Example stem_ex1 :
  Searchsploit.stem "nmap.10.10.10.155-tcp.xml" = "nmap.10.10.10.155-tcp"
  /\ Searchsploit.stem "nmap.xml" = "nmap" /\ Searchsploit.stem ".xml" = ".xml".
Proof. repeat split. Qed.

Example parts_ex1 :
  Fs.parts "/a//b/./c/" = ["/"; "a"; "b"; "c"] /\ Fs.parts "htb-nmap-results" = ["htb-nmap-results"]
  /\ Fs.to_str (Fs.parts "a/./b" ++ ["f.xml"]) = "a/b/f.xml".
Proof. repeat split. Qed.

Example mkdir_ex1 :
  perform_all [Mkdir "a/b"; WriteBytes "a/b/f" [x41]%byte; Mkdir "a/b"] (Fs.Dir ∅)
  = Ok (Fs.Dir {[ "a" := Fs.Dir {[ "b" := Fs.Dir {[ "f" := Fs.File [x41]%byte ]} ]} ]})
  /\ perform_all [WriteBytes "a" []; Mkdir "a"] (Fs.Dir ∅) = Raise FileExistsError
  /\ perform_all [WriteBytes "a" []; Mkdir "a/b"] (Fs.Dir ∅) = Raise NotADirectoryError.
Proof. repeat split; vm_compute; reflexivity. Qed.

(** ** Strings *)

Lemma contains_app c s t :
  PyStr.contains c (s +:+ t) = PyStr.contains c s || PyStr.contains c t.
Proof.
  induction s as [|a s IH]; simpl; [done|].
  rewrite IH. by destruct (Ascii.eqb a c).
Qed.

Lemma split_no_sep c s :
  PyStr.contains c s = false -> PyStr.split c s = [s].
Proof.
  induction s as [|a s IH]; simpl; [done|].
  destruct (Ascii.eqb a c); simpl; [done|].
  intros H. by rewrite IH.
Qed.

Lemma split_app_sep c s t :
  PyStr.contains c s = false ->
  PyStr.split c (s +:+ String c t) = s :: PyStr.split c t.
Proof.
  induction s as [|a s IH]; simpl.
  - intros _. by rewrite Ascii.eqb_refl.
  - destruct (Ascii.eqb a c); simpl; [done|].
    intros H. by rewrite IH.
Qed.

(** Splitting a joined list gives the list back when no part holds the
    separator. *)
Lemma split_join c l :
  l <> [] -> Forall (fun s => PyStr.contains c s = false) l ->
  PyStr.split c (PyStr.join (String c EmptyString) l) = l.
Proof.
  unfold PyStr.join.
  induction l as [|s l IH]; [done|].
  intros _ Hall. inversion Hall as [|? ? Hs Hl]; subst.
  destruct l as [|s' l].
  - simpl. by apply split_no_sep.
  - change (String.concat (String c EmptyString) (s :: s' :: l))
      with (s +:+ String c (String.concat (String c EmptyString) (s' :: l))).
    rewrite split_app_sep by done. f_equal. by apply IH.
Qed.

Lemma join_nonempty sep s l :
  s <> EmptyString -> PyStr.join sep (s :: l) <> EmptyString.
Proof.
  unfold PyStr.join. destruct s as [|a s]; [done|].
  intros _. destruct l; simpl; discriminate.
Qed.

Lemma numeric_port_ok p : numeric p = true -> port_ok p.
Proof.
  unfold numeric, port_ok. intros [Hne Hd]%andb_true_iff. split.
  - intros ->. done.
  - clear Hne. induction p as [|a p IH]; simpl in *; [done|].
    apply andb_true_iff in Hd as [Ha Hp]. rewrite (IH Hp), orb_false_r.
    destruct (Ascii.eqb_spec a ","); [subst; done | done].
Qed.

(** ** The commands of ThreadedNmap *)

Lemma fold_left_app_step {A B} (g : list B -> A -> list B) (f : A -> list B) :
  (forall acc x, g acc x = acc ++ f x) ->
  forall l acc, fold_left g l acc = acc ++ flat_map f l.
Proof.
  intros Hg l. induction l as [|x l IH]; intros acc; simpl.
  - by rewrite app_nil_r.
  - by rewrite IH, Hg, <- app_assoc.
Qed.

Lemma filter_flat_map_nil {A B} (P : B -> Prop) `{!forall b, Decision (P b)}
    (f : A -> list B) (l : list A) :
  (forall y, y ∈ l -> filter P (f y) = []) -> filter P (flat_map f l) = [].
Proof.
  induction l as [|y l IH]; intros Hnil; simpl; [done|].
  rewrite filter_app, Hnil, IH; [done| |left].
  intros z Hz. apply Hnil. by right.
Qed.

(** In a list without duplicates, only the chosen element contributes when
    every other one contributes nothing. *)
Lemma filter_flat_map_unique {A B} (P : B -> Prop) `{!forall b, Decision (P b)}
    (f : A -> list B) (l : list A) (x : A) :
  NoDup l -> x ∈ l ->
  (forall y, y ∈ l -> y <> x -> filter P (f y) = []) ->
  filter P (flat_map f l) = filter P (f x).
Proof.
  intros Hnd Hx Hy.
  apply list_elem_of_split in Hx as (l1 & l2 & ->).
  apply NoDup_app in Hnd as (_ & H1 & Hnd2).
  apply NoDup_cons in Hnd2 as (H2 & _).
  rewrite flat_map_app. simpl. rewrite !filter_app.
  rewrite (filter_flat_map_nil P f l1), (filter_flat_map_nil P f l2).
  - by rewrite app_nil_r.
  - intros y Hin. apply Hy; [set_solver|]. intros ->. done.
  - intros y Hin. apply Hy; [set_solver|]. intros ->. apply (H1 x); [done|left].
Qed.

Section Commands.

Context (web_ports : gset string).

Local Abbreviation scan_protocol := (ThreadedNmap.scan_protocol web_ports).
Local Abbreviation scan_target := (ThreadedNmap.scan_target web_ports).
Local Abbreviation build_commands := (ThreadedNmap.build_commands web_ports).

Lemma scan_protocol_added tf t p ports cmds :
  scan_protocol tf t p ports cmds = cmds ++ added web_ports tf t p ports.
Proof.
  unfold ThreadedNmap.scan_protocol, added, port_list.
  destruct (String.eqb _ EmptyString); [by rewrite app_nil_r | done].
Qed.

Lemma scan_target_added tf t pd cmds :
  scan_target tf t pd cmds
  = cmds ++ flat_map (fun '(p, ports) => added web_ports tf t p ports) (map_to_list pd).
Proof.
  unfold ThreadedNmap.scan_target. apply fold_left_app_step.
  intros acc [p ports]. apply scan_protocol_added.
Qed.

Lemma build_commands_added tf d :
  build_commands tf d
  = flat_map (fun '(t, pd) => flat_map (fun '(p, ports) => added web_ports tf t p ports) (map_to_list pd))
             (map_to_list d).
Proof.
  unfold ThreadedNmap.build_commands.
  rewrite (fold_left_app_step _
    (fun '(t, pd) => flat_map (fun '(p, ports) => added web_ports tf t p ports) (map_to_list pd))); [done|].
  intros acc [t pd]. apply scan_target_added.
Qed.

Lemma added_command tf t p ports cmd :
  cmd ∈ added web_ports tf t p ports ->
  cmd = command tf t p (port_list web_ports ports)
  /\ port_list web_ports ports <> EmptyString.
Proof.
  unfold added. destruct (String.eqb_spec (port_list web_ports ports) EmptyString) as [|Hne].
  - by intros ?%elem_of_nil.
  - by intros ->%list_elem_of_singleton.
Qed.

Lemma invocation_of_command tf host protocol t p pl :
  invocation_of tf host protocol (command tf t p pl) <-> t = host /\ p = protocol.
Proof.
  unfold invocation_of, command, output_prefix. simpl. split.
  - intros [Hpre Hlast]. injection Hlast as ->. split; [done|].
    injection Hpre as Hpre. by repeat apply String.app_inj in Hpre.
  - by intros [-> ->].
Qed.

Lemma filter_added_other tf host protocol t p ports :
  (t, p) <> (host, protocol) ->
  filter (invocation_of tf host protocol) (added web_ports tf t p ports) = [].
Proof.
  intros Hne. unfold added. destruct (String.eqb _ EmptyString); [done|].
  rewrite filter_cons, decide_False; [done|].
  intros [-> ->]%invocation_of_command. done.
Qed.

Lemma filter_added_same tf host protocol ports :
  filter (invocation_of tf host protocol) (added web_ports tf host protocol ports)
  = added web_ports tf host protocol ports.
Proof.
  unfold added. destruct (String.eqb _ EmptyString); [done|].
  rewrite filter_cons, decide_True; [done|]. by apply invocation_of_command.
Qed.

(** The commands of a pair of the map are what the loop body added for it. *)
Lemma commands_of_pair tf d host pd protocol ports :
  d !! host = Some pd -> pd !! protocol = Some ports ->
  filter (invocation_of tf host protocol) (build_commands tf d)
  = added web_ports tf host protocol ports.
Proof.
  intros Hd Hpd. rewrite build_commands_added.
  rewrite (filter_flat_map_unique _ _ _ (host, pd)).
  - rewrite (filter_flat_map_unique _ _ _ (protocol, ports)).
    + apply filter_added_same.
    + apply NoDup_map_to_list.
    + by apply elem_of_map_to_list.
    + intros [p ports'] Hin%elem_of_map_to_list Hne.
      apply filter_added_other. intros [= ->]. apply Hne. congruence.
  - apply NoDup_map_to_list.
  - by apply elem_of_map_to_list.
  - intros [t pd'] Hin%elem_of_map_to_list Hne.
    apply filter_flat_map_nil. intros [p ports'] _.
    apply filter_added_other. intros [= -> ->]. apply Hne. congruence.
Qed.

Lemma port_list_nonempty ports :
  ports ∖ web_ports <> ∅ -> (forall p, p ∈ ports ∖ web_ports -> port_ok p) ->
  port_list web_ports ports <> EmptyString.
Proof.
  intros Hne Hok. unfold port_list.
  destruct (elements (ports ∖ web_ports)) as [|s l] eqn:E.
  - by apply elements_empty_inv, leibniz_equiv in E.
  - apply join_nonempty. apply Hok, elem_of_elements. rewrite E. left.
Qed.

Lemma port_list_split ports :
  ports ∖ web_ports <> ∅ -> (forall p, p ∈ ports ∖ web_ports -> port_ok p) ->
  PyStr.split "," (port_list web_ports ports) = elements (ports ∖ web_ports).
Proof.
  intros Hne Hok. unfold port_list. apply split_join.
  - intros E. by apply elements_empty_inv, leibniz_equiv in E.
  - apply Forall_forall. intros p Hp%elem_of_elements. by apply Hok.
Qed.

(** C2: a pair of the map whose ports are not all web ports gets exactly one
    command; its scan-type flag is [-sT] for the protocol [tcp] and [-sU] for
    any other, and the comma-joined list after [-p], read back, is the set of
    the non-web ports.  The ports are port strings: not empty, no comma. *)
Theorem nmap_one_invocation_per_pair tf d host pd protocol ports :
  d !! host = Some pd -> pd !! protocol = Some ports ->
  ports ∖ web_ports <> ∅ ->
  (forall p, p ∈ ports ∖ web_ports -> port_ok p) ->
  exists cmd non_web_ports,
    filter (invocation_of tf host protocol) (build_commands tf d) = [cmd]
    /\ cmd = command tf host protocol non_web_ports
    /\ cmd !! 2%nat = Some (if String.eqb protocol "tcp" then "-sT" else "-sU")
    /\ cmd !! 8%nat = Some "-p"
    /\ cmd !! 9%nat = Some non_web_ports
    /\ list_to_set (PyStr.split "," non_web_ports) = ports ∖ web_ports.
Proof.
  intros Hd Hpd Hne Hok.
  exists (command tf host protocol (port_list web_ports ports)), (port_list web_ports ports).
  split; [|repeat split].
  - rewrite (commands_of_pair _ _ _ _ _ _ Hd Hpd). unfold added.
    destruct (String.eqb_spec (port_list web_ports ports) EmptyString) as [E|]; [|done].
    by apply port_list_nonempty in E.
  - rewrite port_list_split by done. apply list_to_set_elements_L.
Qed.

(** C3: a pair of the map whose ports are all web ports is skipped: the loop
    body leaves [commands] as it is, no command of the run scans the host
    into the prefix of the pair, and the run still returns. *)
Theorem nmap_web_only_pair_skipped tf d host pd protocol ports :
  d !! host = Some pd -> pd !! protocol = Some ports ->
  ports ⊆ web_ports ->
  (forall cmds, scan_protocol tf host protocol ports cmds = cmds)
  /\ (forall cmd, cmd ∈ build_commands tf d -> ~ invocation_of tf host protocol cmd)
  /\ (forall n, (0 < n)%Z ->
        ThreadedNmap.run web_ports (PyInt n) tf d
        = ([Mkdir (ThreadedNmap.output tf); PoolMap n (build_commands tf d)], Returned)).
Proof.
  intros Hd Hpd Hsub.
  assert (Hadd : added web_ports tf host protocol ports = []).
  { assert (E : ports ∖ web_ports = ∅).
    { apply set_eq. intros x. rewrite elem_of_difference, elem_of_empty.
      split; [|done]. intros [Hx Hnx]. by apply Hnx, Hsub. }
    unfold added, port_list. by rewrite E, elements_empty. }
  split; [|split].
  - intros cmds. by rewrite scan_protocol_added, Hadd, app_nil_r.
  - intros cmd Hin Hinv.
    assert (Hf : cmd ∈ filter (invocation_of tf host protocol) (build_commands tf d))
      by by apply list_elem_of_filter.
    rewrite (commands_of_pair _ _ _ _ _ _ Hd Hpd), Hadd in Hf. by apply elem_of_nil in Hf.
  - intros n Hn. unfold ThreadedNmap.run, ThreadPoolExecutor. simpl.
    rewrite Z.abs_eq by lia. destruct (Z.leb_spec n 0); [lia|done].
Qed.

(** C6: in every command of the run the argument after [-oA] is the path
    [{output directory}/nmap.{host}-{protocol}] of a pair of the map, and the
    host of that pair is the last argument. *)
Theorem nmap_output_prefix_and_target tf d cmd :
  cmd ∈ build_commands tf d ->
  exists host pd protocol ports,
    d !! host = Some pd /\ pd !! protocol = Some ports
    /\ length cmd = 13%nat
    /\ cmd !! 10%nat = Some "-oA"
    /\ cmd !! 11%nat
       = Some (ThreadedNmap.output tf +:+ "/nmap." +:+ host +:+ "-" +:+ protocol)
    /\ cmd !! 12%nat = Some host
    /\ last cmd = Some host.
Proof.
  rewrite build_commands_added. intros Hin.
  apply list_elem_of_In, in_flat_map in Hin as ([host pd] & Hd & Hin).
  apply in_flat_map in Hin as ([protocol ports] & Hpd & Hin).
  apply list_elem_of_In, elem_of_map_to_list in Hd, Hpd.
  apply list_elem_of_In, added_command in Hin as [-> _].
  by exists host, pd, protocol, ports.
Qed.

End Commands.

(** ** The threads parameter *)

Section Threads.

Context (web_ports : gset string).

Local Abbreviation run := (ThreadedNmap.run web_ports).
Local Abbreviation build_commands := (ThreadedNmap.build_commands web_ports).

(** The handler of [run] catches [TypeError] only. *)
Lemma run_type_error threads tf d :
  PyInt.int threads = Raise TypeError ->
  run threads tf d
  = ([LogError "The value supplied to --threads must be a non-negative integer."], Returned).
Proof. unfold ThreadedNmap.run. by intros ->. Qed.

Lemma run_value_error threads tf d :
  PyInt.int threads = Raise ValueError -> run threads tf d = ([], Raised ValueError).
Proof. unfold ThreadedNmap.run. by intros ->. Qed.

Lemma run_int threads n tf d :
  PyInt.int threads = Ok n ->
  run threads tf d
  = if (Z.abs n <=? 0)%Z then ([Mkdir (ThreadedNmap.output tf)], Raised ValueError)
    else ([Mkdir (ThreadedNmap.output tf); PoolMap (Z.abs n) (build_commands tf d)], Returned).
Proof.
  unfold ThreadedNmap.run, ThreadPoolExecutor. intros ->. by destruct (Z.abs n <=? 0)%Z.
Qed.

(** C1, on the code: for the threads value ["abc"] the run ends in an
    uncaught [ValueError]; no request is issued, so nothing is logged.  (A
    value whose conversion raises [TypeError], like [None], is logged:
    [run_type_error].) *)
Theorem threads_abc_not_logged tf d :
  PyInt.int (PyStr "abc") = Raise ValueError
  /\ run (PyStr "abc") tf d = ([], Raised ValueError)
  /\ run PyNone tf d
     = ([LogError "The value supplied to --threads must be a non-negative integer."], Returned).
Proof. repeat split. Qed.

(** C9: a threads value whose integer is negative is no error: the run
    returns, and the pool is sized with the absolute value. *)
Theorem negative_threads_coerced threads n tf d :
  PyInt.int threads = Ok n -> (n < 0)%Z ->
  run threads tf d
  = ([Mkdir (ThreadedNmap.output tf); PoolMap (Z.abs n) (build_commands tf d)], Returned)
  /\ Z.abs n = (- n)%Z.
Proof.
  intros Hint Hn. rewrite (run_int _ _ _ _ Hint).
  destruct (Z.leb_spec (Z.abs n) 0); [lia|]. split; [done|lia].
Qed.

(** C10: with threads 0 the run does not return: the directory is asked for,
    then the constructor of the pool raises [ValueError]; no job is handed to
    a pool. *)
Theorem zero_threads_fails tf d :
  run (PyInt 0) tf d = ([Mkdir (ThreadedNmap.output tf)], Raised ValueError)
  /\ run (PyStr "0") tf d = ([Mkdir (ThreadedNmap.output tf)], Raised ValueError)
  /\ ThreadPoolExecutor (Z.abs 0) = Raise ValueError.
Proof. repeat split. Qed.

End Threads.

(** ** Searchsploit *)

Section Lookup.

Context (searchsploit : list string -> list byte).

Local Abbreviation lookup := (Searchsploit.lookup searchsploit).
Local Abbreviation srun := (Searchsploit.run searchsploit).

Lemma run_trace tf listing :
  srun tf listing
  = (flat_map (lookup tf) (List.filter Searchsploit.glob_match listing), Returned).
Proof.
  unfold Searchsploit.run. f_equal.
  by rewrite (fold_left_app_step _ (lookup tf)).
Qed.

Lemma lookup_cases tf name :
  lookup tf name
  = Run (lookup_argv tf name) ::
    match searchsploit (lookup_argv tf name) with
    | [] => []
    | _ :: _ => [Mkdir (Searchsploit.output tf);
                 WriteBytes (Searchsploit.result_path tf name)
                            (searchsploit (lookup_argv tf name))]
    end.
Proof. reflexivity. Qed.

(** The files of a run: one per matching entry whose error stream is not
    empty, in the order of the listing. *)
Lemma run_writes tf listing :
  writes (srun tf listing).1
  = flat_map (fun name =>
                match searchsploit (lookup_argv tf name) with
                | [] => []
                | _ :: _ => [(Searchsploit.result_path tf name, searchsploit (lookup_argv tf name))]
                end)
             (List.filter Searchsploit.glob_match listing).
Proof.
  rewrite run_trace. cbn [fst]. unfold writes.
  induction (List.filter Searchsploit.glob_match listing) as [|name l IH]; [done|].
  cbn [flat_map]. rewrite flat_map_app, IH. f_equal.
  rewrite lookup_cases. by destruct (searchsploit (lookup_argv tf name)).
Qed.

End Lookup.

(** C5, on the code: the name of the result file for the scan of the host
    [scanme.nmap.org] loses the [nmap.] inside the host, where taking the
    prefix and the suffix off the stem keeps it; for
    [nmap.10.10.10.155-tcp.xml] the two agree. *)
Theorem searchsploit_name_inner_match tf :
  Searchsploit.result_path tf "nmap.scanme.nmap.org-tcp.xml"
  = Searchsploit.output tf +:+ "/searchsploit.scanme.org-tcp.txt"
  /\ spec_result_path tf "nmap.scanme.nmap.org-tcp.xml"
     = Searchsploit.output tf +:+ "/searchsploit.scanme.nmap.org-tcp.txt"
  /\ Searchsploit.result_path tf "nmap.10.10.10.155-tcp.xml"
     = Searchsploit.output tf +:+ "/searchsploit.10.10.10.155-tcp.txt"
  /\ spec_result_path tf "nmap.10.10.10.155-tcp.xml"
     = Searchsploit.output tf +:+ "/searchsploit.10.10.10.155-tcp.txt".
Proof. repeat split. Qed.

(** ** The name of the result file for a host without pattern characters *)

Lemma str_app_cons a s t : String a s +:+ t = String a (s +:+ t).
Proof. reflexivity. Qed.

Lemma str_app_nil_l t : EmptyString +:+ t = t.
Proof. reflexivity. Qed.

Lemma str_app_nil_r s : s +:+ EmptyString = s.
Proof. induction s as [|a s IH]; [done|]. by rewrite str_app_cons, IH. Qed.

Lemma str_app_assoc s t u : (s +:+ t) +:+ u = s +:+ (t +:+ u).
Proof. induction s as [|a s IH]; [done|]. by rewrite !str_app_cons, IH. Qed.

Lemma str_length_app s t : String.length (s +:+ t) = String.length s + String.length t.
Proof. induction s as [|a s IH]; [done|]. rewrite str_app_cons. simpl. by rewrite IH. Qed.

Lemma substring_whole s : substring 0 (String.length s) s = s.
Proof. induction s as [|a s IH]; simpl; [done|]. by rewrite IH. Qed.

Lemma substring_prefix s t : substring 0 (String.length s) (s +:+ t) = s.
Proof.
  induction s as [|a s IH]; [by destruct t|]. rewrite str_app_cons. simpl. by rewrite IH.
Qed.

Lemma substring_skip s t m : substring (String.length s) m (s +:+ t) = substring 0 m t.
Proof. induction s as [|a s IH]; [done|]. rewrite str_app_cons. simpl. by rewrite IH. Qed.

Lemma substring_suffix s t : substring (String.length s) (String.length t) (s +:+ t) = t.
Proof. by rewrite substring_skip, substring_whole. Qed.

Lemma substring_contains a t s : forall n m,
  substring n m s = String a t -> PyStr.contains a s = true.
Proof.
  induction s as [|c s IH]; intros n m H.
  - by destruct n, m.
  - simpl. destruct n as [|n].
    + destruct m as [|m]; [done|]. simpl in H. injection H as -> _.
      by rewrite Ascii.eqb_refl.
    + simpl in H. rewrite (IH _ _ H). by rewrite orb_true_r.
Qed.

Lemma startswith_app p s : PyStr.startswith p (p +:+ s) = true.
Proof.
  induction p as [|a p IH]; [done|]. rewrite str_app_cons. simpl. by rewrite Ascii.eqb_refl.
Qed.

Lemma endswith_app p s : PyStr.endswith p (s +:+ p) = true.
Proof.
  unfold PyStr.endswith. rewrite str_length_app.
  replace (String.length s + String.length p - String.length p) with (String.length s) by lia.
  rewrite substring_suffix, String.eqb_refl, andb_true_r.
  apply Nat.leb_le. lia.
Qed.

(** A suffix of the same length that differs is not matched. *)
Lemma endswith_other p q s :
  String.length p = String.length q -> p <> q -> PyStr.endswith p (s +:+ q) = false.
Proof.
  intros Hlen Hne. unfold PyStr.endswith. rewrite str_length_app, Hlen.
  replace (String.length s + String.length q - String.length q) with (String.length s) by lia.
  rewrite substring_suffix. apply andb_false_iff. right.
  apply String.eqb_neq. congruence.
Qed.

Lemma endswith_absent a p s :
  PyStr.contains a s = false -> PyStr.endswith (String a p) s = false.
Proof.
  intros Hc. unfold PyStr.endswith. apply andb_false_iff. right.
  apply String.eqb_neq. intros H. apply substring_contains in H. congruence.
Qed.

Lemma rfind_app c s t :
  PyStr.rfind c (s +:+ t)
  = match PyStr.rfind c t with
    | Some i => Some (String.length s + i)
    | None => PyStr.rfind c s
    end.
Proof.
  induction s as [|a s IH].
  - rewrite str_app_nil_l. by destruct (PyStr.rfind c t).
  - rewrite str_app_cons. simpl. rewrite IH. by destruct (PyStr.rfind c t).
Qed.

(** The stem of [s.xml] is [s]. *)
Lemma stem_xml s : s <> EmptyString -> Searchsploit.stem (s +:+ ".xml") = s.
Proof.
  intros Hs. unfold Searchsploit.stem. rewrite rfind_app. simpl.
  rewrite Nat.add_0_r, str_length_app. simpl.
  destruct s as [|a s]; [done|]. simpl String.length.
  replace (0 <? S (String.length s))%nat with true by (symmetry; apply Nat.ltb_lt; lia).
  replace (S (String.length s) <? S (String.length s) + 4 - 1)%nat with true
    by (symmetry; apply Nat.ltb_lt; lia).
  simpl andb. apply (substring_prefix (String a s)).
Qed.

Lemma replace_from_skip old new s t :
  PyStr.replace_from old new (String.length s) (s +:+ t) = PyStr.replace_from old new 0 t.
Proof.
  induction s as [|a s IH]; [by destruct t|]. rewrite str_app_cons. simpl. apply IH.
Qed.

(** An occurrence at the front is replaced. *)
Lemma replace_from_match a old new t :
  PyStr.replace_from (String a old) new 0 (String a old +:+ t)
  = new +:+ PyStr.replace_from (String a old) new 0 t.
Proof.
  pose proof (startswith_app (String a old) t) as Hs.
  rewrite str_app_cons in *. cbn [PyStr.replace_from]. rewrite Hs. f_equal.
  replace (String.length (String a old) - 1) with (String.length old) by (simpl; lia).
  apply replace_from_skip.
Qed.

(** A stretch without the first character of [old] is copied. *)
Lemma replace_from_copy a old new s t :
  PyStr.contains a s = false ->
  PyStr.replace_from (String a old) new 0 (s +:+ t)
  = s +:+ PyStr.replace_from (String a old) new 0 t.
Proof.
  induction s as [|c s IH]; intros Hc; [done|].
  simpl in Hc. apply orb_false_iff in Hc as [Hca Hcs].
  rewrite !str_app_cons. cbn [PyStr.replace_from PyStr.startswith].
  rewrite Ascii.eqb_sym, Hca. by rewrite IH.
Qed.

Lemma replace_from_absent a old new s :
  PyStr.contains a s = false -> PyStr.replace_from (String a old) new 0 s = s.
Proof.
  intros Hc. rewrite <- (str_app_nil_r s) at 1.
  rewrite replace_from_copy by done. simpl. apply str_app_nil_r.
Qed.

(** X18: for a host without the letter [n] and without a dash, an address
    for one, the code recovers the host from the stem, and the result file
    has the name the specification gives. *)
Lemma result_path_plain_host tf host protocol :
  PyStr.contains "n" host = false -> PyStr.contains "-" host = false ->
  protocol = "tcp" \/ protocol = "udp" ->
  let name := "nmap." +:+ host +:+ "-" +:+ protocol +:+ ".xml" in
  Searchsploit.stem name = "nmap." +:+ host +:+ "-" +:+ protocol
  /\ Searchsploit.target_of (Searchsploit.stem name) = host
  /\ spec_target_of (Searchsploit.stem name) = host
  /\ Searchsploit.result_path tf name
     = Searchsploit.output tf +:+ "/searchsploit." +:+ host +:+ "-" +:+ protocol +:+ ".txt"
  /\ spec_result_path tf name = Searchsploit.result_path tf name.
Proof.
  intros Hn Hd Hp name.
  assert (Hstem : Searchsploit.stem name = "nmap." +:+ host +:+ "-" +:+ protocol).
  { unfold name.
    replace ("nmap." +:+ host +:+ "-" +:+ protocol +:+ ".xml")
      with (("nmap." +:+ host +:+ "-" +:+ protocol) +:+ ".xml")
      by (by rewrite !str_app_assoc).
    by apply stem_xml. }
  assert (Hlast : PyStr.last_chars 3 (Searchsploit.stem name) = protocol).
  { rewrite Hstem. unfold PyStr.last_chars.
    replace ("nmap." +:+ host +:+ "-" +:+ protocol)
      with (("nmap." +:+ host +:+ "-") +:+ protocol) by (by rewrite !str_app_assoc).
    rewrite str_length_app.
    replace (String.length ("nmap." +:+ host +:+ "-") + String.length protocol - 3)
      with (String.length ("nmap." +:+ host +:+ "-")) by (destruct Hp as [->| ->]; simpl; lia).
    replace 3 with (String.length protocol) by (by destruct Hp as [->| ->]).
    apply substring_suffix. }
  assert (Htarget : Searchsploit.target_of (Searchsploit.stem name) = host).
  { rewrite Hstem. unfold Searchsploit.target_of, PyStr.replace.
    rewrite (replace_from_match "n" "map." EmptyString), str_app_nil_l.
    rewrite replace_from_copy by done.
    destruct Hp as [-> | ->].
    - change (PyStr.replace_from "nmap." EmptyString 0 ("-" +:+ "tcp")) with "-tcp".
      rewrite (replace_from_copy "-" "tcp") by done.
      change (PyStr.replace_from "-tcp" EmptyString 0 "-tcp") with EmptyString.
      rewrite str_app_nil_r. by apply replace_from_absent.
    - change (PyStr.replace_from "nmap." EmptyString 0 ("-" +:+ "udp")) with "-udp".
      rewrite (replace_from_copy "-" "tcp") by done.
      change (PyStr.replace_from "-tcp" EmptyString 0 "-udp") with "-udp".
      rewrite (replace_from_copy "-" "udp") by done.
      change (PyStr.replace_from "-udp" EmptyString 0 "-udp") with EmptyString.
      apply str_app_nil_r. }
  assert (Hspec : spec_target_of (Searchsploit.stem name) = host).
  { rewrite Hstem. unfold spec_target_of.
    assert (E : removeprefix "nmap." ("nmap." +:+ host +:+ "-" +:+ protocol)
                = host +:+ "-" +:+ protocol).
    { unfold removeprefix. rewrite startswith_app, str_length_app.
      replace (String.length "nmap." + String.length (host +:+ "-" +:+ protocol)
               - String.length "nmap.") with (String.length (host +:+ "-" +:+ protocol)) by lia.
      apply substring_suffix. }
    rewrite E. unfold removesuffix.
    destruct Hp as [-> | ->].
    - change ("-" +:+ "tcp") with "-tcp". rewrite (endswith_app "-tcp" host).
      replace (substring 0 (String.length (host +:+ "-tcp") - String.length "-tcp") (host +:+ "-tcp"))
        with host.
      + by rewrite (endswith_absent "-" "udp").
      + rewrite str_length_app. simpl String.length.
        replace (String.length host + 4 - 4) with (String.length host) by lia.
        by rewrite substring_prefix.
    - change ("-" +:+ "udp") with "-udp".
      rewrite (endswith_other "-tcp" "-udp" host) by done.
      rewrite (endswith_app "-udp" host).
      rewrite str_length_app. simpl String.length.
      replace (String.length host + 4 - 4) with (String.length host) by lia.
      by rewrite substring_prefix. }
  repeat split; try done.
  - unfold Searchsploit.result_path. by rewrite Htarget, Hlast.
  - unfold spec_result_path, Searchsploit.result_path. by rewrite Htarget, Hspec.
Qed.

(** ** The output directory *)

Lemma is_dir_cons c p es :
  Fs.is_dir (c :: p) (Fs.Dir es) = match es !! c with Some n => Fs.is_dir p n | None => false end.
Proof. unfold Fs.is_dir. simpl. by destruct (es !! c). Qed.

Lemma is_dir_file p data : Fs.is_dir p (Fs.File data) = false.
Proof. by destruct p. Qed.

(** After [mkdir] the path is a directory. *)
Lemma mkdir_is_dir p : forall n n', Fs.mkdir p n = Ok n' -> Fs.is_dir p n' = true.
Proof.
  induction p as [|c p IH]; intros [data|es] n' H; simpl in H; try discriminate.
  - by injection H as <-.
  - destruct (Fs.mkdir p _) as [m|] eqn:E; [|discriminate].
    injection H as <-. rewrite is_dir_cons, lookup_insert_eq. by eapply IH.
Qed.

(** [mkdir] of a directory that is there succeeds and changes nothing. *)
Lemma mkdir_existing p : forall n, Fs.is_dir p n = true -> Fs.mkdir p n = Ok n.
Proof.
  induction p as [|c p IH]; intros [data|es] H; try (by rewrite is_dir_file in H); [done|].
  rewrite is_dir_cons in H. simpl.
  destruct (es !! c) as [m|] eqn:E; [|discriminate].
  rewrite (IH _ H). by rewrite insert_id.
Qed.

(** Directories stay directories under [mkdir] and [write_bytes]. *)
Lemma mkdir_keeps_dir q : forall p n n',
  Fs.mkdir q n = Ok n' -> Fs.is_dir p n = true -> Fs.is_dir p n' = true.
Proof.
  induction q as [|c q IH]; intros p [data|es] n' H Hp; simpl in H; try discriminate.
  - by injection H as <-.
  - destruct (Fs.mkdir q _) as [m|] eqn:E; [|discriminate].
    injection H as <-. destruct p as [|c' p]; [done|].
    rewrite is_dir_cons in *.
    destruct (decide (c = c')) as [->|Hne].
    + rewrite lookup_insert_eq. destruct (es !! c') as [m'|]; [|discriminate].
      by eapply IH.
    + by rewrite lookup_insert_ne.
Qed.

Lemma write_bytes_keeps_dir q data : forall p n n',
  Fs.write_bytes q data n = Ok n' -> Fs.is_dir p n = true -> Fs.is_dir p n' = true.
Proof.
  induction q as [|c q IH]; intros p [data'|es] n' H Hp; simpl in H; try discriminate;
    try (by rewrite is_dir_file in Hp).
  destruct p as [|c' p].
  { destruct (es !! c); [destruct (Fs.write_bytes q data _)|destruct q];
      by (discriminate || injection H as <-). }
  rewrite is_dir_cons in Hp.
  destruct (es !! c) as [m|] eqn:E.
  - destruct (Fs.write_bytes q data m) as [m'|] eqn:W; [|discriminate].
    injection H as <-. rewrite is_dir_cons.
    destruct (decide (c = c')) as [->|Hne].
    + rewrite lookup_insert_eq. rewrite E in Hp. by eapply IH.
    + by rewrite lookup_insert_ne.
  - destruct q; [|discriminate]. injection H as <-. rewrite is_dir_cons.
    destruct (decide (c = c')) as [->|Hne].
    + by rewrite E in Hp.
    + by rewrite lookup_insert_ne.
Qed.

Lemma perform_keeps_dir e p fs fs' :
  perform e fs = Ok fs' -> Fs.is_dir p fs = true -> Fs.is_dir p fs' = true.
Proof.
  destruct e; simpl; intros H Hp; try (by injection H as <-).
  - by eapply mkdir_keeps_dir.
  - by eapply write_bytes_keeps_dir.
Qed.

Lemma perform_all_keeps_dir es p : forall fs fs',
  perform_all es fs = Ok fs' -> Fs.is_dir p fs = true -> Fs.is_dir p fs' = true.
Proof.
  induction es as [|e es IH]; intros fs fs' H Hp; simpl in H.
  - by injection H as <-.
  - destruct (perform e fs) as [fs1|] eqn:E; [|discriminate].
    eapply IH; [done|]. by eapply perform_keeps_dir.
Qed.

(** A written file holds the bytes. *)
Lemma write_bytes_lookup q data : forall n n',
  Fs.write_bytes q data n = Ok n' -> Fs.lookup_path q n' = Some (Fs.File data).
Proof.
  induction q as [|c q IH]; intros [data'|es] n' H; simpl in H; try discriminate.
  - by injection H as <-.
  - destruct (es !! c) as [m|] eqn:E.
    + destruct (Fs.write_bytes q data m) as [m'|] eqn:W; [|discriminate].
      injection H as <-. simpl. rewrite lookup_insert_eq. by eapply IH.
    + destruct q; [|discriminate]. injection H as <-. simpl.
      by rewrite lookup_insert_eq.
Qed.

(** On the tree: when the requests of the lookup of an entry with a stream
    that is not empty go through, the result directory is there and the
    result file holds the stream. *)
Lemma lookup_on_tree searchsploit tf name fs fs' :
  searchsploit (lookup_argv tf name) <> [] ->
  perform_all (Searchsploit.lookup searchsploit tf name) fs = Ok fs' ->
  Fs.is_dir (Fs.parts (Searchsploit.output tf)) fs' = true
  /\ Fs.lookup_path (Fs.parts (Searchsploit.result_path tf name)) fs'
     = Some (Fs.File (searchsploit (lookup_argv tf name))).
Proof.
  intros Hne. rewrite lookup_cases.
  destruct (searchsploit (lookup_argv tf name)) as [|b l] eqn:E; [done|].
  cbn [perform_all perform].
  destruct (Fs.mkdir _ fs) as [fs1|] eqn:M; [|discriminate].
  destruct (Fs.write_bytes _ _ fs1) as [fs2|] eqn:W; [|discriminate].
  intros [= <-]. split.
  - eapply write_bytes_keeps_dir; [done|]. by eapply mkdir_is_dir.
  - by eapply write_bytes_lookup.
Qed.

(** ** Searchsploit on the tree *)

(** Regular files stay as they are under [mkdir]. *)
Lemma mkdir_keeps_file q : forall p n n' data,
  Fs.mkdir q n = Ok n' -> Fs.lookup_path p n = Some (Fs.File data) ->
  Fs.lookup_path p n' = Some (Fs.File data).
Proof.
  induction q as [|c q IH]; intros p [data'|es] n' data H Hp; simpl in H; try discriminate.
  - by injection H as <-.
  - destruct (Fs.mkdir q _) as [m|] eqn:E; [|discriminate].
    injection H as <-. destruct p as [|c' p]; [done|]. simpl in *.
    destruct (decide (c = c')) as [->|Hne].
    + rewrite lookup_insert_eq. destruct (es !! c') as [m'|]; [|discriminate].
      by eapply IH.
    + by rewrite lookup_insert_ne.
Qed.

(** A written file leaves the other files as they are. *)
Lemma write_bytes_other q data : forall p n n' data',
  Fs.write_bytes q data n = Ok n' -> p <> q ->
  Fs.lookup_path p n = Some (Fs.File data') ->
  Fs.lookup_path p n' = Some (Fs.File data').
Proof.
  induction q as [|c q IH]; intros p [d0|es] n' data' H Hne Hp; simpl in H; try discriminate.
  - destruct p; [done|discriminate].
  - destruct p as [|c' p]; [done|]. simpl in Hp.
    destruct (es !! c') as [m'|] eqn:E'; [|discriminate].
    destruct (es !! c) as [m|] eqn:E.
    + destruct (Fs.write_bytes q data m) as [m2|] eqn:W; [|discriminate].
      injection H as <-. simpl.
      destruct (decide (c = c')) as [->|Hc].
      * rewrite lookup_insert_eq. rewrite E in E'. injection E' as ->.
        eapply IH; [done| |done]. congruence.
      * by rewrite lookup_insert_ne, E'.
    + destruct q; [|discriminate]. injection H as <-. simpl.
      rewrite lookup_insert_ne, E'; [done|]. congruence.
Qed.

Lemma contains_substring c s : forall n m,
  PyStr.contains c s = false -> PyStr.contains c (substring n m s) = false.
Proof.
  induction s as [|a s IH]; intros n m H.
  - by destruct n, m.
  - simpl in H. apply orb_false_iff in H as [Ha Hs].
    destruct n as [|n]; simpl.
    + destruct m as [|m]; [done|]. simpl. by rewrite Ha, IH.
    + by apply IH.
Qed.

(** Taking occurrences out brings no new character in. *)
Lemma contains_replace_from c old s : forall skip,
  PyStr.contains c s = false ->
  PyStr.contains c (PyStr.replace_from old EmptyString skip s) = false.
Proof.
  induction s as [|a s IH]; intros skip H; [done|].
  simpl in H. apply orb_false_iff in H as [Ha Hs].
  cbn [PyStr.replace_from]. destruct skip as [|k]; [|by apply IH].
  destruct (PyStr.startswith old (String a s)).
  - rewrite str_app_nil_l. by apply IH.
  - simpl. by rewrite Ha, IH.
Qed.

Lemma contains_stem c name :
  PyStr.contains c name = false -> PyStr.contains c (Searchsploit.stem name) = false.
Proof.
  intros H. unfold Searchsploit.stem.
  destruct (PyStr.rfind "." name) as [i|]; [|done].
  destruct (_ && _); [by apply contains_substring|done].
Qed.

Lemma split_not_nil c s : PyStr.split c s <> [].
Proof.
  induction s as [|a s IH]; simpl; [done|].
  destruct (Ascii.eqb a c); [done|]. by destruct (PyStr.split c s).
Qed.

Lemma split_app_last c s f :
  PyStr.contains c f = false ->
  PyStr.split c (s +:+ String c f) = PyStr.split c s ++ [f].
Proof.
  intros Hf. induction s as [|a s IH].
  - rewrite str_app_nil_l. simpl. by rewrite Ascii.eqb_refl, split_no_sep.
  - rewrite str_app_cons. simpl. rewrite IH.
    destruct (Ascii.eqb a c); [done|].
    pose proof (split_not_nil c s). by destruct (PyStr.split c s).
Qed.

Lemma root_of_app s t : 3 <= String.length s -> Fs.root_of (s +:+ t) = Fs.root_of s.
Proof.
  destruct s as [|a [|b [|c s]]]; simpl; intros H; try lia. done.
Qed.

(** The parts of [dir/file]. *)
Lemma parts_file dir file :
  3 <= String.length dir -> PyStr.contains "/" file = false -> Fs.real_part file = true ->
  Fs.parts (dir +:+ String "/" file) = Fs.parts dir ++ [file].
Proof.
  intros Hlen Hc Hr. unfold Fs.parts.
  rewrite root_of_app by done. rewrite split_app_last by done.
  rewrite List.filter_app. simpl. by rewrite Hr, app_assoc.
Qed.

(** Writing into a directory that is there fails only on a directory. *)
Lemma write_into_dir p file data : forall n,
  Fs.is_dir p n = true ->
  (exists n', Fs.write_bytes (p ++ [file]) data n = Ok n')
  \/ (Fs.is_dir (p ++ [file]) n = true
      /\ Fs.write_bytes (p ++ [file]) data n = Raise IsADirectoryError).
Proof.
  induction p as [|c p IH]; intros [d0|es] Hd; try (by rewrite is_dir_file in Hd).
  - simpl. rewrite is_dir_cons. destruct (es !! file) as [[d1|es1]|]; eauto.
  - rewrite is_dir_cons in Hd. cbn [app Fs.write_bytes]. rewrite is_dir_cons.
    destruct (es !! c) as [m|]; [|discriminate].
    destruct (IH m Hd) as [[n' ->]|[Hdir ->]]; eauto.
Qed.

(** The last part of the path of the result file. *)
Lemma result_path_parts tf name :
  PyStr.contains "/" name = false ->
  exists file,
    Fs.parts (Searchsploit.result_path tf name) = Fs.parts (Searchsploit.output tf) ++ [file].
Proof.
  intros Hname.
  exists ("searchsploit." +:+ Searchsploit.target_of (Searchsploit.stem name) +:+ "-"
            +:+ PyStr.last_chars 3 (Searchsploit.stem name) +:+ ".txt").
  apply (parts_file (Searchsploit.output tf)).
  - unfold Searchsploit.output. rewrite str_length_app. simpl. lia.
  - pose proof (contains_stem "/" name Hname) as Hs.
    assert (Ht : PyStr.contains "/" (Searchsploit.target_of (Searchsploit.stem name)) = false).
    { unfold Searchsploit.target_of, PyStr.replace.
      by do 3 apply contains_replace_from. }
    assert (Hl : PyStr.contains "/" (PyStr.last_chars 3 (Searchsploit.stem name)) = false)
      by (by apply contains_substring).
    rewrite !contains_app, Ht, Hl. done.
  - done.
Qed.

Lemma perform_all_app es1 es2 fs :
  perform_all (es1 ++ es2) fs
  = match perform_all es1 fs with
    | Ok fs1 => perform_all es2 fs1
    | Raise e => Raise e
    end.
Proof.
  revert fs. induction es1 as [|e es1 IH]; intros fs; simpl; [done|].
  destruct (perform e fs); [apply IH|done].
Qed.

(** [write_bytes] makes no directory. *)
Lemma write_bytes_no_new_dir q data : forall p n n',
  Fs.write_bytes q data n = Ok n' -> Fs.is_dir p n' = true -> Fs.is_dir p n = true.
Proof.
  induction q as [|c q IH]; intros p [d0|es] n' H Hp; simpl in H; try discriminate.
  - injection H as <-. by rewrite is_dir_file in Hp.
  - destruct p as [|c' p]; [done|]. rewrite is_dir_cons.
    destruct (es !! c) as [m|] eqn:E.
    + destruct (Fs.write_bytes q data m) as [m'|] eqn:W; [|discriminate].
      injection H as <-. rewrite is_dir_cons in Hp.
      destruct (decide (c = c')) as [->|Hne].
      * rewrite lookup_insert_eq in Hp. rewrite E. by eapply IH.
      * by rewrite lookup_insert_ne in Hp.
    + destruct q; [|discriminate]. injection H as <-. rewrite is_dir_cons in Hp.
      destruct (decide (c = c')) as [->|Hne].
      * rewrite lookup_insert_eq in Hp. by rewrite is_dir_file in Hp.
      * by rewrite lookup_insert_ne in Hp.
Qed.

Section LookupOnTree.

Context (searchsploit : list string -> list byte).

Local Abbreviation lookup := (Searchsploit.lookup searchsploit).
Local Abbreviation lookup_on := (Searchsploit.lookup_on searchsploit).
Local Abbreviation run_entries := (Searchsploit.run_entries searchsploit).
Local Abbreviation run_on := (Searchsploit.run_on searchsploit).

Lemma lookup_on_cases tf name fs :
  lookup_on tf name fs
  = match searchsploit (lookup_argv tf name) with
    | [] => ([Run (lookup_argv tf name)], fs, Returned)
    | _ :: _ =>
        match Fs.mkdir (Fs.parts (Searchsploit.output tf)) fs with
        | Raise e => ([Run (lookup_argv tf name); Mkdir (Searchsploit.output tf)], fs, Raised e)
        | Ok fs1 =>
            match Fs.write_bytes (Fs.parts (Searchsploit.result_path tf name))
                                 (searchsploit (lookup_argv tf name)) fs1 with
            | Raise e => (lookup tf name, fs1, Raised e)
            | Ok fs2 => (lookup tf name, fs2, Returned)
            end
        end
    end.
Proof.
  unfold Searchsploit.lookup_on. rewrite lookup_cases. fold (lookup_argv tf name).
  destruct (searchsploit (lookup_argv tf name)); [done|].
  destruct (Fs.mkdir _ fs); [|done]. by destruct (Fs.write_bytes _ _ _).
Qed.

Lemma lookup_on_empty tf name fs :
  searchsploit (lookup_argv tf name) = [] ->
  lookup_on tf name fs = ([Run (lookup_argv tf name)], fs, Returned).
Proof. rewrite lookup_on_cases. by intros ->. Qed.

(** The body that returns has made the requests of [lookup], and they went
    through. *)
Lemma lookup_on_returned tf name fs tr fs' :
  lookup_on tf name fs = (tr, fs', Returned) ->
  tr = lookup tf name /\ perform_all tr fs = Ok fs'.
Proof.
  rewrite lookup_on_cases, lookup_cases.
  destruct (searchsploit (lookup_argv tf name)) as [|b l] eqn:E.
  { by intros [= <- <-]. }
  destruct (Fs.mkdir _ fs) as [fs1|] eqn:M; [|done].
  destruct (Fs.write_bytes _ _ fs1) as [fs2|] eqn:W; [|done].
  intros [= <- <-]. split; [done|]. cbn [perform_all perform]. by rewrite M, W.
Qed.

(** The requests made are requests of [lookup], in its order. *)
Lemma lookup_on_requests tf name fs tr fs' ending :
  lookup_on tf name fs = (tr, fs', ending) -> exists rest, lookup tf name = tr ++ rest.
Proof.
  rewrite lookup_on_cases, lookup_cases.
  destruct (searchsploit (lookup_argv tf name)) as [|b l] eqn:E.
  { intros [= <- _ _]. by exists []. }
  destruct (Fs.mkdir _ fs) as [fs1|] eqn:M.
  - destruct (Fs.write_bytes _ _ fs1) as [fs2|] eqn:W; intros [= <- _ _]; by exists [].
  - intros [= <- _ _]. by eexists [_].
Qed.

Lemma run_entries_cons tf name rest fs :
  run_entries tf (name :: rest) fs
  = match lookup_on tf name fs with
    | (requests, fs1, Returned) =>
        let '(requests', fs2, ending) := run_entries tf rest fs1 in
        (requests ++ requests', fs2, ending)
    | (requests, fs1, Raised e) => (requests, fs1, Raised e)
    end.
Proof. reflexivity. Qed.

Lemma run_entries_returned tf : forall l fs tr fs',
  run_entries tf l fs = (tr, fs', Returned) ->
  tr = flat_map (lookup tf) l /\ perform_all tr fs = Ok fs'.
Proof.
  induction l as [|name l IH]; intros fs tr fs' H.
  { injection H as <- <-. done. }
  rewrite run_entries_cons in H.
  destruct (lookup_on tf name fs) as [[tr0 fs0] [|e]] eqn:L; [|done].
  destruct (run_entries tf l fs0) as [[tr1 fs1] o1] eqn:R.
  injection H as <- <- ->.
  destruct (lookup_on_returned _ _ _ _ _ L) as [-> H0].
  destruct (IH _ _ _ R) as [-> H1].
  split; [done|]. by rewrite perform_all_app, H0.
Qed.

Lemma run_entries_requests tf : forall l fs tr fs' ending,
  run_entries tf l fs = (tr, fs', ending) -> exists rest, flat_map (lookup tf) l = tr ++ rest.
Proof.
  induction l as [|name l IH]; intros fs tr fs' ending H.
  { injection H as <- _ _. by exists []. }
  rewrite run_entries_cons in H.
  destruct (lookup_on tf name fs) as [[tr0 fs0] [|e]] eqn:L.
  - destruct (run_entries tf l fs0) as [[tr1 fs1] o1] eqn:R.
    injection H as <- _ _.
    destruct (lookup_on_returned _ _ _ _ _ L) as [-> _].
    destruct (IH _ _ _ _ R) as [rest Hrest].
    exists rest. cbn [flat_map]. by rewrite Hrest, app_assoc.
  - injection H as <- _ _.
    destruct (lookup_on_requests _ _ _ _ _ _ L) as [rest0 Hrest0].
    exists (rest0 ++ flat_map (lookup tf) l). cbn [flat_map]. by rewrite Hrest0, app_assoc.
Qed.

(** Every write of a run is the stream, not empty, of an entry, to the
    result file of that entry. *)
Lemma run_entries_writes tf l fs tr fs' ending path data :
  run_entries tf l fs = (tr, fs', ending) -> WriteBytes path data ∈ tr ->
  data <> [] /\ exists name, name ∈ l /\ path = Searchsploit.result_path tf name
                             /\ data = searchsploit (lookup_argv tf name).
Proof.
  intros [rest Hreq]%run_entries_requests Hin.
  assert (Hin' : WriteBytes path data ∈ flat_map (lookup tf) l).
  { rewrite Hreq. apply elem_of_app. by left. }
  apply list_elem_of_In, in_flat_map in Hin' as (name & Hname & Hw).
  rewrite lookup_cases in Hw.
  destruct (searchsploit (lookup_argv tf name)) as [|b bs] eqn:E; simpl in Hw.
  - destruct Hw as [|[]]; done.
  - destruct Hw as [|[|[[= <- <-]|[]]]]; try done.
    split; [done|]. exists name. rewrite E. by split; [apply list_elem_of_In|].
Qed.

(** When every stream is empty, the run returns and the tree is as it
    was. *)
Lemma run_entries_silent tf : forall l fs,
  (forall name, name ∈ l -> searchsploit (lookup_argv tf name) = []) ->
  run_entries tf l fs = (List.map (fun name => Run (lookup_argv tf name)) l, fs, Returned).
Proof.
  induction l as [|name l IH]; intros fs Hall; [done|].
  rewrite run_entries_cons, lookup_on_empty by (apply Hall; left).
  rewrite IH; [done|]. intros name' Hin. apply Hall. by right.
Qed.

(** A regular file of the tree is, after a run that returns, as it was, or
    it holds the stream of an entry that has it as result file. *)
Lemma run_entries_file_kept tf : forall l fs tr fs' p data,
  run_entries tf l fs = (tr, fs', Returned) ->
  Fs.lookup_path p fs = Some (Fs.File data) ->
  Fs.lookup_path p fs' = Some (Fs.File data)
  \/ exists name, name ∈ l /\ searchsploit (lookup_argv tf name) <> []
                  /\ Fs.parts (Searchsploit.result_path tf name) = p
                  /\ Fs.lookup_path p fs' = Some (Fs.File (searchsploit (lookup_argv tf name))).
Proof.
  induction l as [|name l IH]; intros fs tr fs' p data H Hp.
  { injection H as _ <-. by left. }
  rewrite run_entries_cons in H.
  destruct (lookup_on tf name fs) as [[tr0 fs0] [|e]] eqn:L; [|done].
  destruct (run_entries tf l fs0) as [[tr1 fs1] o1] eqn:R.
  injection H as _ <- ->.
  assert (Hrest : forall data0, Fs.lookup_path p fs0 = Some (Fs.File data0) ->
            Fs.lookup_path p fs1 = Some (Fs.File data0)
            \/ exists name', name' ∈ name :: l /\ searchsploit (lookup_argv tf name') <> []
                 /\ Fs.parts (Searchsploit.result_path tf name') = p
                 /\ Fs.lookup_path p fs1
                    = Some (Fs.File (searchsploit (lookup_argv tf name')))).
  { intros data0 Hp0. destruct (IH _ _ _ _ _ R Hp0) as [Hk|(name' & Hin & Hrest)]; [by left|].
    right. exists name'. split; [by right|done]. }
  rewrite lookup_on_cases in L.
  destruct (searchsploit (lookup_argv tf name)) as [|b bs] eqn:E.
  { injection L as _ <-. by apply Hrest. }
  destruct (Fs.mkdir _ fs) as [fsm|] eqn:M; [|done].
  destruct (Fs.write_bytes _ _ fsm) as [fs2|] eqn:W; [|done].
  injection L as _ <-.
  destruct (decide (p = Fs.parts (Searchsploit.result_path tf name))) as [->|Hne].
  - pose proof (write_bytes_lookup _ _ _ _ W) as Hw.
    destruct (Hrest _ Hw) as [Hk|Hother]; [|by right].
    right. exists name. rewrite E. split; [left|done].
  - apply Hrest. eapply write_bytes_other; [done|done|]. by eapply mkdir_keeps_file.
Qed.

(** After a run that returns, the result file of an entry with a stream is
    in the result directory, and holds the stream of an entry that has it as
    result file: the last one of them. *)
Lemma run_entries_result tf : forall l fs tr fs' name,
  run_entries tf l fs = (tr, fs', Returned) ->
  name ∈ l -> searchsploit (lookup_argv tf name) <> [] ->
  Fs.is_dir (Fs.parts (Searchsploit.output tf)) fs' = true
  /\ exists name', name' ∈ l /\ searchsploit (lookup_argv tf name') <> []
       /\ Fs.parts (Searchsploit.result_path tf name')
          = Fs.parts (Searchsploit.result_path tf name)
       /\ Fs.lookup_path (Fs.parts (Searchsploit.result_path tf name)) fs'
          = Some (Fs.File (searchsploit (lookup_argv tf name'))).
Proof.
  induction l as [|name0 l IH]; intros fs tr fs' name H Hin Hne.
  { by apply elem_of_nil in Hin. }
  rewrite run_entries_cons in H.
  destruct (lookup_on tf name0 fs) as [[tr0 fs0] [|e]] eqn:L; [|done].
  destruct (run_entries tf l fs0) as [[tr1 fs1] o1] eqn:R.
  injection H as _ <- ->.
  apply elem_of_cons in Hin as [->|Hin].
  - destruct (lookup_on_returned _ _ _ _ _ L) as [-> L'].
    destruct (lookup_on_tree _ _ _ _ _ Hne L') as [Hdir Hfile].
    destruct (run_entries_returned _ _ _ _ _ R) as [_ R'].
    split; [by eapply perform_all_keeps_dir|].
    destruct (run_entries_file_kept _ _ _ _ _ _ _ R Hfile) as [Hk|(name' & Hin' & Hne' & Hp & Hk)].
    + exists name0. split; [left|done].
    + exists name'. split; [by right|done].
  - destruct (IH _ _ _ _ R Hin Hne) as [Hdir (name' & Hin' & Hrest)].
    split; [done|]. exists name'. split; [by right|done].
Qed.

(** A run returns when the result directory can be made and no result file
    is a directory. *)
Lemma run_entries_returns tf : forall l fs fsm,
  Fs.mkdir (Fs.parts (Searchsploit.output tf)) fs = Ok fsm ->
  (forall name, name ∈ l ->
     PyStr.contains "/" name = false
     /\ Fs.is_dir (Fs.parts (Searchsploit.result_path tf name)) fsm = false) ->
  exists tr fs', run_entries tf l fs = (tr, fs', Returned).
Proof.
  induction l as [|name l IH]; intros fs fsm M Hall; [by eexists _, _|].
  rewrite run_entries_cons, lookup_on_cases.
  assert (Hl : forall name', name' ∈ l ->
            PyStr.contains "/" name' = false
            /\ Fs.is_dir (Fs.parts (Searchsploit.result_path tf name')) fsm = false).
  { intros name' Hin. apply Hall. by right. }
  destruct (searchsploit (lookup_argv tf name)) as [|b bs] eqn:E.
  { destruct (IH fs fsm M Hl) as (tr & fs' & ->). by eexists _, _. }
  rewrite M.
  destruct (Hall name ltac:(left)) as [Hname Hnd].
  destruct (result_path_parts tf name Hname) as [file Hparts].
  pose proof (mkdir_is_dir _ _ _ M) as Hdir.
  rewrite Hparts in *.
  destruct (write_into_dir _ file (b :: bs) fsm Hdir) as [[fs2 W]|[Hd _]];
    [|by rewrite Hd in Hnd].
  rewrite W.
  destruct (IH fs2 fs2) as (tr & fs' & ->); [| |by eexists _, _].
  - apply mkdir_existing. by eapply write_bytes_keeps_dir.
  - intros name' Hin. destruct (Hl name' Hin) as [Hn Hd]. split; [done|].
    destruct (Fs.is_dir (Fs.parts (Searchsploit.result_path tf name')) fs2) eqn:D; [|done].
    apply (write_bytes_no_new_dir _ _ _ _ _ W) in D. by rewrite D in Hd.
Qed.

(** C4: for an entry of the directory that matches [nmap*.xml], in a run of
    Searchsploit on a tree.  The stream of the entry is written to its
    result file only when it is not empty, and in a run that returns exactly
    then.  With an empty stream the body of the loop runs the lookup and
    nothing else: the tree is as it was, nothing is raised.  With a stream
    that is not empty, and the run returning, the result directory is there
    and the result file holds the stream (of the last entry that has this
    result file).  When every stream is empty the run returns and leaves the
    tree as it was; and it returns whenever the result directory can be made
    and no result file is a directory. *)
Theorem searchsploit_writes_iff_stderr tf listing name fs trace fs' ending :
  name ∈ listing -> Searchsploit.glob_match name = true ->
  run_on tf listing fs = (trace, fs', ending) ->
  let proc_stderr := searchsploit (lookup_argv tf name) in
  let result := Searchsploit.result_path tf name in
  (WriteBytes result proc_stderr ∈ trace -> proc_stderr <> [])
  /\ (ending = Returned -> (proc_stderr <> [] <-> WriteBytes result proc_stderr ∈ trace))
  /\ (proc_stderr = [] ->
      forall fs0, lookup_on tf name fs0 = ([Run (lookup_argv tf name)], fs0, Returned))
  /\ (ending = Returned -> proc_stderr <> [] ->
      Fs.is_dir (Fs.parts (Searchsploit.output tf)) fs' = true
      /\ exists name',
           name' ∈ listing /\ Searchsploit.glob_match name' = true
           /\ searchsploit (lookup_argv tf name') <> []
           /\ Fs.parts (Searchsploit.result_path tf name') = Fs.parts result
           /\ Fs.lookup_path (Fs.parts result) fs'
              = Some (Fs.File (searchsploit (lookup_argv tf name'))))
  /\ ((forall name', name' ∈ listing -> Searchsploit.glob_match name' = true ->
                     searchsploit (lookup_argv tf name') = []) ->
      ending = Returned /\ fs' = fs)
  /\ (Fs.proper (Fs.parts (Searchsploit.output tf)) ->
      forall fsm,
        Fs.mkdir (Fs.parts (Searchsploit.output tf)) fs = Ok fsm ->
        (forall name', name' ∈ listing -> Searchsploit.glob_match name' = true ->
           PyStr.contains "/" name' = false
           /\ Fs.is_dir (Fs.parts (Searchsploit.result_path tf name')) fsm = false) ->
        ending = Returned).
Proof.
  intros Hin Hglob Hrun proc_stderr result. unfold Searchsploit.run_on in Hrun.
  assert (Hf : name ∈ List.filter Searchsploit.glob_match listing).
  { apply list_elem_of_In, filter_In. split; [by apply list_elem_of_In|done]. }
  assert (Hmatch : forall name', name' ∈ List.filter Searchsploit.glob_match listing ->
                     name' ∈ listing /\ Searchsploit.glob_match name' = true).
  { intros name' [H1 H2]%list_elem_of_In%filter_In. by split; [apply list_elem_of_In|]. }
  assert (Hw : WriteBytes result proc_stderr ∈ trace -> proc_stderr <> []).
  { intros Hw. by destruct (run_entries_writes _ _ _ _ _ _ _ _ Hrun Hw). }
  split; [done|]. split; [|split; [|split; [|split]]].
  - intros ->. split; [|done]. intros Hne.
    destruct (run_entries_returned _ _ _ _ _ Hrun) as [-> _].
    apply list_elem_of_In, in_flat_map. exists name.
    split; [by apply list_elem_of_In|]. rewrite lookup_cases.
    fold proc_stderr. fold result. destruct proc_stderr; [done|]. right. right. by left.
  - intros E fs0. by apply lookup_on_empty.
  - intros -> Hne.
    destruct (run_entries_result _ _ _ _ _ _ Hrun Hf Hne)
      as [Hdir (name' & Hin' & Hne' & Hp & Hfile)].
    split; [done|]. exists name'. destruct (Hmatch _ Hin') as [H1 H2]. done.
  - intros Hall.
    rewrite run_entries_silent in Hrun.
    + by injection Hrun as _ <- <-.
    + intros name' Hin'. destruct (Hmatch _ Hin') as [H1 H2]. by apply Hall.
  - intros _ fsm M Hall.
    destruct (run_entries_returns tf (List.filter Searchsploit.glob_match listing) fs fsm M)
      as (tr & fs1 & Hret).
    + intros name' Hin'. destruct (Hmatch _ Hin') as [H1 H2]. by apply Hall.
    + rewrite Hret in Hrun. by injection Hrun as _ _ <-.
Qed.

End LookupOnTree.

(** ** The second run of ThreadedNmap *)

(** C7: when the requests of a run of ThreadedNmap went through, and
    whatever was written since went through too, the requests of a second
    run on the same input go through and leave the tree as it is: asking for
    the output directory that is already there is no error. *)
Theorem nmap_rerun_directory_exists web_ports threads tf d fs fs1 later fs2 :
  perform_all (ThreadedNmap.run web_ports threads tf d).1 fs = Ok fs1 ->
  perform_all later fs1 = Ok fs2 ->
  perform_all (ThreadedNmap.run web_ports threads tf d).1 fs2 = Ok fs2
  /\ (Mkdir (ThreadedNmap.output tf) ∈ (ThreadedNmap.run web_ports threads tf d).1 ->
      Fs.is_dir (Fs.parts (ThreadedNmap.output tf)) fs2 = true
      /\ perform (Mkdir (ThreadedNmap.output tf)) fs2 = Ok fs2).
Proof.
  intros Hfirst Hlater.
  assert (Hdir : Mkdir (ThreadedNmap.output tf) ∈ (ThreadedNmap.run web_ports threads tf d).1 ->
                 Fs.is_dir (Fs.parts (ThreadedNmap.output tf)) fs2 = true).
  { intros Hin. eapply perform_all_keeps_dir; [done|].
    revert Hfirst Hin. unfold ThreadedNmap.run.
    destruct (PyInt.int threads) as [n|[]]; simpl;
      try (by intros _ ?%elem_of_nil); try (by intros _ [=]%list_elem_of_singleton).
    intros Hfirst _.
    assert (Hm : exists m, Fs.mkdir (Fs.parts (ThreadedNmap.output tf)) fs = Ok m /\ m = fs1).
    { destruct (ThreadPoolExecutor (Z.abs n)); simpl in Hfirst;
        destruct (Fs.mkdir _ fs) as [m|]; try discriminate; injection Hfirst as <-; by exists m. }
    destruct Hm as (m & Hm & <-). by eapply mkdir_is_dir. }
  split.
  - revert Hdir. unfold ThreadedNmap.run.
    destruct (PyInt.int threads) as [n|[]]; simpl; try done.
    destruct (ThreadPoolExecutor (Z.abs n)); simpl; intros Hdir;
      rewrite (mkdir_existing _ fs2); try done; apply Hdir; left.
  - intros Hin. split; [by apply Hdir|]. simpl. apply mkdir_existing. by apply Hdir.
Qed.

(** ** The worker pool *)

Section PoolFacts.

Import Pool.

Lemma busy_app ws1 ws2 : busy (ws1 ++ ws2) = busy ws1 ++ busy ws2.
Proof. apply flat_map_app. Qed.

Lemma waiting_app q1 q2 : waiting (q1 ++ q2) = waiting q1 ++ waiting q2.
Proof. apply flat_map_app. Qed.

Lemma started_app evs1 evs2 : started (evs1 ++ evs2) = started evs1 ++ started evs2.
Proof. apply flat_map_app. Qed.

Lemma ended_app evs1 evs2 : ended (evs1 ++ evs2) = ended evs1 ++ ended evs2.
Proof. apply flat_map_app. Qed.

Lemma waiting_work cs : waiting (List.map Work cs) = cs.
Proof. induction cs as [|c cs IH]; [done|]. simpl. by rewrite IH. Qed.

Lemma busy_length ws : length (busy ws) <= length ws.
Proof. induction ws as [|[| |] ws IH]; simpl; lia. Qed.

Lemma forallb_exited ws : forallb is_exited ws = true <-> Forall (fun w => w = Exited) ws.
Proof.
  induction ws as [|w ws IH]; simpl.
  - split; [intros _; constructor|done].
  - rewrite andb_true_iff, IH, Forall_cons. destruct w; simpl; intuition congruence.
Qed.

(** A worker changing its state: the list around it stays. *)
Lemma workers_split (ws : list worker) i w w' :
  ws !! i = Some w ->
  exists l r, ws = l ++ w :: r /\ <[i := w']> ws = l ++ w' :: r.
Proof.
  intros Hi. exists (take i ws), (drop (S i) ws). split.
  - by rewrite take_drop_middle.
  - apply insert_take_drop. by eapply lookup_lt_Some.
Qed.

Lemma step_cases n a s ev s' : step n a s = Some (ev, s') <-> step_case n a s ev s'.
Proof.
  split.
  - destruct s as [td q ws ph]. destruct a as [spawn| |i|i|]; simpl.
    + destruct ph; try done. destruct td as [|c td]; [done|]. destruct spawn.
      * destruct (Z.ltb_spec (Z.of_nat (length ws)) n); [|done].
        intros [= <- <-]. by constructor.
      * destruct ws as [|w ws'] eqn:E; [done|]. intros [= <- <-]. by constructor.
    + destruct ph; try done. destruct td; [|done]. intros [= <- <-]. constructor.
    + destruct (ws !! i) as [[| |]|] eqn:E; try done.
      destruct q as [|[c|] q]; try done; intros [= <- <-]; by constructor.
    + destruct (ws !! i) as [[|c|]|] eqn:E; try done. intros [= <- <-]. by constructor.
    + destruct ph; try done. destruct (forallb is_exited ws) eqn:E; [|done].
      intros [= <- <-]. constructor. by apply forallb_exited.
  - destruct 1 as [c td q ws Hlt|c td q ws Hne|q ws|i c td q ws ph Hi|i td q ws ph Hi
                  |i c td q ws ph Hi|td q ws Hall]; simpl.
    + by destruct (Z.ltb_spec (Z.of_nat (length ws)) n); [|lia].
    + by destruct ws.
    + done.
    + by rewrite Hi.
    + by rewrite Hi.
    + by rewrite Hi.
    + apply forallb_exited in Hall. by rewrite Hall.
Qed.

Lemma step_inv n jobs evs s a ev s' :
  inv n jobs evs s -> step n a s = Some (ev, s') -> inv n jobs (evs ++ ev) s'.
Proof.
  intros [Hb Hj Hbu Hm Hs He Hst Hd] Hstep%step_cases.
  destruct Hstep as [c td q ws Hlt|c td q ws Hne|q ws|i c td q ws ph Hi|i td q ws ph Hi
                    |i c td q ws ph Hi|td q ws Hall]; simpl in *;
    rewrite ?app_nil_r, ?started_app, ?ended_app; simpl; rewrite ?app_nil_r.
  - destruct (Hm eq_refl) as [cs ->]. split; simpl; rewrite ?started_app, ?ended_app; simpl; rewrite ?app_nil_r.
    + rewrite length_app. simpl. lia.
    + rewrite waiting_app, waiting_work in *. simpl. rewrite <- Hj.
      solve_Permutation.
    + rewrite busy_app. simpl. by rewrite app_nil_r.
    + intros _. exists (cs ++ [c]). by rewrite List.map_app.
    + done.
    + intros [Hin|Hin%list_elem_of_singleton]%elem_of_app; [|done].
      apply He in Hin. by destruct cs.
    + by destruct ws.
    + done.
  - destruct (Hm eq_refl) as [cs ->]. split; simpl; rewrite ?started_app, ?ended_app; simpl; rewrite ?app_nil_r.
    + done.
    + rewrite waiting_app, waiting_work in *. simpl. rewrite <- Hj.
      solve_Permutation.
    + done.
    + intros _. exists (cs ++ [c]). by rewrite List.map_app.
    + done.
    + intros Hin. apply He in Hin. by destruct cs.
    + done.
    + done.
  - destruct (Hm eq_refl) as [cs ->]. split; simpl; rewrite ?started_app, ?ended_app; simpl; rewrite ?app_nil_r.
    + done.
    + by rewrite waiting_app, app_nil_r.
    + done.
    + done.
    + intros _. split; [done|]. by exists cs.
    + intros Hin. apply He in Hin. by destruct cs.
    + intros Hws. by rewrite waiting_app, (Hst Hws).
    + done.
  - destruct (workers_split ws i Idle (Busy c) Hi) as (l & r & -> & ->). split; simpl; rewrite ?started_app, ?ended_app; simpl; rewrite ?app_nil_r.
    + rewrite length_app in *. simpl in *. lia.
    + rewrite <- Hj. solve_Permutation.
    + rewrite busy_app in *. simpl in *. rewrite Hbu. solve_Permutation.
    + intros Hph. destruct (Hm Hph) as [cs Hcs]. destruct cs as [|c' cs]; [done|].
      exists cs. by injection Hcs.
    + intros Hph. destruct (Hs Hph) as [-> [cs Hcs]]. split; [done|].
      destruct cs as [|c' cs]; [done|]. exists cs. by injection Hcs.
    + intros [Hin|[|Hin]%elem_of_cons]%elem_of_app; [|done|];
        exfalso; (assert (Work c :: q = [Stop]) as [=]); apply He, elem_of_app;
        [by left | right; by right].
    + by destruct l.
    + intros Hph. apply Hd, Forall_app in Hph as [_ Hr]. by inversion Hr.
  - destruct (workers_split ws i Idle Exited Hi) as (l & r & -> & ->).
    assert (Hq : ph <> Mapping /\ q = []).
    { destruct ph; [destruct (Hm eq_refl) as [[|? ?] ?]; done|..];
        (split; [done|]); destruct (Hs ltac:(done)) as [_ [[|c cs] Hcs]];
        injection Hcs; try done; intros E; by destruct cs. }
    destruct Hq as [Hph ->]. split; simpl; rewrite ?started_app, ?ended_app; simpl; rewrite ?app_nil_r.
    + rewrite length_app in *. simpl in *. lia.
    + done.
    + rewrite busy_app in *. simpl in *. done.
    + done.
    + intros _. split; [by apply Hs|]. by exists [].
    + done.
    + by destruct l.
    + intros E. apply Hd, Forall_app in E as [_ Hr]. by inversion Hr.
  - destruct (workers_split ws i (Busy c) Idle Hi) as (l & r & -> & ->). split; simpl; rewrite ?started_app, ?ended_app; simpl; rewrite ?app_nil_r.
    + rewrite length_app in *. simpl in *. lia.
    + done.
    + rewrite busy_app in *. simpl in *. rewrite Hbu. solve_Permutation.
    + done.
    + done.
    + intros [Hin|[|Hin]%elem_of_cons]%elem_of_app; [|done|]; apply He, elem_of_app;
        [by left | right; by right].
    + by destruct l.
    + intros Hph. apply Hd, Forall_app in Hph as [_ Hr]. by inversion Hr.
  - split; simpl; try done. intros _. by apply Hs.
Qed.

Lemma init_inv n jobs : (0 <= n)%Z -> inv n jobs [] (init jobs).
Proof.
  intros Hn. split; simpl.
  - lia.
  - by rewrite app_nil_r.
  - done.
  - intros _. by exists [].
  - done.
  - by intros ?%elem_of_nil.
  - done.
  - done.
Qed.

Lemma exec_inv n jobs sched : forall evs0 s0 evs s,
  inv n jobs evs0 s0 -> exec n sched s0 = Some (evs, s) -> inv n jobs (evs0 ++ evs) s.
Proof.
  induction sched as [|a sched IH]; intros evs0 s0 evs s Hinv Hex; simpl in Hex.
  - injection Hex as <- <-. by rewrite app_nil_r.
  - destruct (step n a s0) as [[ev s1]|] eqn:Hstep; [|done].
    destruct (exec n sched s1) as [[evs' s2]|] eqn:Hrest; [|done].
    injection Hex as <- <-. rewrite app_assoc. eapply IH; [|done].
    by eapply step_inv.
Qed.

(** All along an execution of the pool on [jobs]. *)
Lemma exec_init_inv n jobs sched evs s :
  (0 <= n)%Z -> exec n sched (init jobs) = Some (evs, s) -> inv n jobs evs s.
Proof. intros Hn Hex. apply (exec_inv n jobs sched [] (init jobs)); [by apply init_inv|done]. Qed.

(** The events up to any moment are the events of an execution. *)
Lemma exec_prefix n sched : forall s0 evs s before after,
  exec n sched s0 = Some (evs, s) -> evs = before ++ after ->
  exists sched1 s1, exec n sched1 s0 = Some (before, s1).
Proof.
  induction sched as [|a sched IH]; intros s0 evs s before after Hex Hevs; simpl in Hex.
  - injection Hex as <- <-. symmetry in Hevs. apply app_eq_nil in Hevs as [-> _].
    by exists [], s0.
  - destruct (step n a s0) as [[ev s1]|] eqn:Hstep; [|done].
    destruct (exec n sched s1) as [[evs' s2]|] eqn:Hrest; [|done].
    injection Hex as <- <-.
    destruct before as [|b before]; [by exists [], s0|].
    assert (Hev : ev = [] \/ exists e, ev = [e]).
    { apply step_cases in Hstep. destruct Hstep; eauto. }
    destruct Hev as [->|[e ->]]; simpl in Hevs.
    + destruct (IH s1 evs' s2 (b :: before) after Hrest Hevs) as (sched1 & s' & Hex1).
      exists (a :: sched1), s'. simpl. by rewrite Hstep, Hex1.
    + injection Hevs as -> Hevs.
      destruct (IH s1 evs' s2 before after Hrest Hevs) as (sched1 & s' & Hex1).
      exists (a :: sched1), s'. simpl. by rewrite Hstep, Hex1.
Qed.

(** No more scans execute than there are workers, and no more workers are
    started than [max_workers]. *)
Lemma inv_running n jobs evs s :
  inv n jobs evs s ->
  length (started evs) = running s + length (ended evs) /\ (Z.of_nat (running s) <= n)%Z.
Proof.
  intros [Hb _ Hbu _ _ _ _ _]. unfold running. split.
  - apply Permutation_length in Hbu. by rewrite length_app in Hbu.
  - pose proof (busy_length (workers s)). lia.
Qed.

Lemma inv_events n jobs evs s :
  inv n jobs evs s -> ended evs ⊆+ started evs /\ started evs ⊆+ jobs.
Proof.
  intros [_ Hj Hbu _ _ _ _ _]. split.
  - rewrite Hbu. apply submseteq_inserts_l. done.
  - rewrite <- Hj. rewrite app_assoc. apply submseteq_inserts_l. done.
Qed.

(** Past the [with] block every job has been started, and is over. *)
Lemma inv_finished n jobs evs s :
  inv n jobs evs s -> at_phase s = Done ->
  started evs ≡ₚ jobs /\ ended evs ≡ₚ jobs /\ running s = 0.
Proof.
  intros [_ Hj Hbu _ Hs He Hst Hd] Hph.
  destruct (Hs ltac:(by rewrite Hph)) as [Htd _]. rewrite Htd in Hj.
  specialize (Hd Hph).
  assert (Hbusy : busy (workers s) = []).
  { clear -Hd. induction Hd as [|w ws -> _ IH]; [done|]. by simpl. }
  assert (Hwait : waiting (queue s) = []).
  { destruct (workers s) as [|w ws] eqn:E; [by apply Hst|].
    inversion Hd as [|? ? -> _]; subst. rewrite He; [done|left]. }
  rewrite Hwait in Hj. rewrite Hbusy in Hbu. simpl in *.
  split; [done|]. split; [by rewrite <- Hbu|]. unfold running. by rewrite Hbusy.
Qed.

Lemma worker_weight_split l w r :
  list_sum (List.map worker_weight (l ++ w :: r))
  = list_sum (List.map worker_weight l) + worker_weight w + list_sum (List.map worker_weight r).
Proof. rewrite List.map_app, list_sum_app. simpl. lia. Qed.

(** Every move lowers the measure. *)
Lemma step_measure n a s ev s' : step n a s = Some (ev, s') -> measure s' < measure s.
Proof.
  intros Hstep%step_cases. unfold measure.
  destruct Hstep as [c td q ws Hlt|c td q ws Hne|q ws|i c td q ws ph Hi|i td q ws ph Hi
                    |i c td q ws ph Hi|td q ws Hall]; simpl.
  - rewrite waiting_app, length_app, List.map_app, list_sum_app. simpl. lia.
  - rewrite waiting_app, length_app. simpl. lia.
  - rewrite waiting_app, length_app. simpl. lia.
  - destruct (workers_split ws i Idle (Busy c) Hi) as (l & r & -> & ->).
    rewrite !worker_weight_split. simpl. lia.
  - destruct (workers_split ws i Idle Exited Hi) as (l & r & -> & ->).
    rewrite !worker_weight_split, waiting_app, length_app. simpl. lia.
  - destruct (workers_split ws i (Busy c) Idle Hi) as (l & r & -> & ->).
    rewrite !worker_weight_split. simpl. lia.
  - lia.
Qed.

Lemma exec_measure n sched : forall s0 evs s,
  exec n sched s0 = Some (evs, s) -> measure s + length sched <= measure s0.
Proof.
  induction sched as [|a sched IH]; intros s0 evs s Hex; simpl in Hex.
  - injection Hex as _ <-. simpl. lia.
  - destruct (step n a s0) as [[ev s1]|] eqn:Hstep; [|done].
    destruct (exec n sched s1) as [[evs' s2]|] eqn:Hrest; [|done].
    injection Hex as _ <-. apply step_measure in Hstep. apply IH in Hrest. simpl. lia.
Qed.

Lemma workers_cases (ws : list worker) :
  (exists i c, ws !! i = Some (Busy c)) \/ (exists i, ws !! i = Some Idle)
  \/ Forall (fun w => w = Exited) ws.
Proof.
  induction ws as [|w ws IH]; [by right; right|].
  destruct w as [|c|].
  - right. left. by exists 0%nat.
  - left. by exists 0%nat, c.
  - destruct IH as [(i & c & H)|[(i & H)|H]].
    + left. by exists (S i), c.
    + right. left. by exists (S i).
    + right. right. by constructor.
Qed.

(** Before the end, the pool can move by itself unless a scan is running;
    the end of that scan is then a move. *)
Lemma inv_progress n jobs evs s :
  (1 <= n)%Z -> inv n jobs evs s -> at_phase s <> Done ->
  (exists a r, own a = true /\ step n a s = Some r)
  \/ (exists i c, workers s !! i = Some (Busy c)
                  /\ exists s', step n (Finish i) s = Some ([Ended c], s')).
Proof.
  intros Hn [Hb Hj Hbu Hm Hs He Hst Hd] Hph.
  destruct s as [td q ws ph]. simpl in *. destruct ph; [| |done].
  - left. destruct td as [|c td].
    + exists Shutdown. by eexists.
    + destruct ws as [|w ws].
      * exists (Submit true). eexists. split; [done|]. simpl.
        assert (E : (Z.of_nat 0 <? n)%Z = true) by (apply Z.ltb_lt; lia).
        by rewrite E.

      * exists (Submit false). by eexists.
  - destruct (Hs ltac:(done)) as [-> [cs ->]].
    destruct (workers_cases ws) as [(i & c & Hi)|[(i & Hi)|Hall]].
    + right. exists i, c. split; [done|]. eexists. simpl. by rewrite Hi.
    + left. exists (Take i). destruct cs as [|c cs]; simpl; rewrite Hi; by eexists.
    + left. exists Join. simpl. apply forallb_exited in Hall. rewrite Hall. by eexists.
Qed.

(** From every moment on, the pool can get to the end of the [with] block. *)
Lemma inv_completes n jobs :
  (1 <= n)%Z -> forall m evs s,
  measure s < m -> inv n jobs evs s ->
  exists sched evs' s', exec n sched s = Some (evs', s') /\ at_phase s' = Done.
Proof.
  intros Hn. induction m as [|m IH]; intros evs s Hm Hinv; [lia|].
  assert (Hdec : at_phase s = Done \/ at_phase s <> Done)
    by (destruct (at_phase s); (by left) || (by right)).
  destruct Hdec as [Hd|Hd]; [by exists [], [], s|].
  assert (Hstep : exists a ev s1, step n a s = Some (ev, s1)).
  { destruct (inv_progress n jobs evs s Hn Hinv Hd)
      as [(a & [ev s1] & _ & Ha)|(i & c & _ & s1 & Ha)]; eauto. }
  destruct Hstep as (a & ev & s1 & Ha).
  destruct (IH (evs ++ ev) s1) as (sched & evs' & s' & Hex & Hd').
  - apply step_measure in Ha. lia.
  - by eapply step_inv.
  - exists (a :: sched), (ev ++ evs'), s'. split; [|done]. simpl. by rewrite Ha, Hex.
Qed.

End PoolFacts.

(** C8: for a threads value whose integer [n] is positive, the only pool of
    the run is one of [n] workers on the commands of the run.  Take any
    execution of it, whatever the schedule.  At every moment, the scans
    started and not yet over are at most [n]; a scan is over only after it
    was started, and no command is started more often than the run has it.
    When the [with] block is left, that is before [run] returns, every
    command of the run has been started, and is over; and from every moment
    on the pool can get there. *)
Theorem pool_bounded_and_joined web_ports threads n tf d e sched evs s :
  PyInt.int threads = Ok n -> (0 < n)%Z ->
  e ∈ (ThreadedNmap.run web_ports threads tf d).1 ->
  pool_exec e sched = Some (evs, s) ->
  let jobs := ThreadedNmap.build_commands web_ports tf d in
  ThreadedNmap.run web_ports threads tf d
  = ([Mkdir (ThreadedNmap.output tf); PoolMap n jobs], Returned)
  /\ e = PoolMap n jobs
  /\ (forall before after, evs = before ++ after ->
        (Z.of_nat (length (Pool.started before))
         <= Z.of_nat (length (Pool.ended before)) + n)%Z
        /\ Pool.ended before ⊆+ Pool.started before
        /\ Pool.started before ⊆+ jobs)
  /\ (Pool.at_phase s = Pool.Done ->
        Pool.started evs ≡ₚ jobs /\ Pool.ended evs ≡ₚ jobs)
  /\ (exists sched' evs' s',
        Pool.exec n sched' s = Some (evs', s') /\ Pool.at_phase s' = Pool.Done).
Proof.
  intros Hint Hn He Hex jobs.
  assert (Hrun : ThreadedNmap.run web_ports threads tf d
                 = ([Mkdir (ThreadedNmap.output tf); PoolMap n jobs], Returned)).
  { rewrite (run_int _ _ _ _ _ Hint). rewrite Z.abs_eq by lia.
    by destruct (Z.leb_spec n 0); [lia|]. }
  rewrite Hrun in He. cbn [fst] in He.
  assert (He' : e = PoolMap n jobs).
  { apply elem_of_cons in He as [->|He]; [done|].
    by apply list_elem_of_singleton in He. }
  subst e. cbn [pool_exec] in Hex.
  split; [done|]. split; [done|]. split.
  - intros before after Hevs.
    destruct (exec_prefix _ _ _ _ _ _ _ Hex Hevs) as (sched1 & s1 & Hex1).
    assert (Hinv : Pool.inv n jobs before s1) by (apply (exec_init_inv _ _ sched1); [lia|done]).
    destruct (inv_running _ _ _ _ Hinv) as [Hlen Hrunning].
    split; [lia|]. by apply (inv_events n jobs before s1).
  - assert (Hinv : Pool.inv n jobs evs s) by (apply (exec_init_inv _ _ sched); [lia|done]).
    split.
    + intros Hdone. destruct (inv_finished _ _ _ _ Hinv Hdone) as (Hs & Hend & _). done.
    + apply (inv_completes n jobs ltac:(lia) (S (Pool.measure s)) evs s); [lia|done].
Qed.

(** ** The theorems at the scenarios *)

Lemma nmap_one_invocation_per_pair_witness :
  exists cmd non_web_ports,
    filter (invocation_of "htb-targets" "10.10.10.1" "tcp")
           (ThreadedNmap.build_commands Scenario.web_ports "htb-targets" Scenario.ssh_and_web)
    = [cmd]
    /\ cmd = command "htb-targets" "10.10.10.1" "tcp" non_web_ports
    /\ cmd !! 2%nat = Some (if String.eqb "tcp" "tcp" then "-sT" else "-sU")
    /\ cmd !! 8%nat = Some "-p"
    /\ cmd !! 9%nat = Some non_web_ports
    /\ list_to_set (PyStr.split "," non_web_ports)
       = ({["22"; "80"; "443"]} : gset string) ∖ Scenario.web_ports.
Proof.
  apply (nmap_one_invocation_per_pair Scenario.web_ports "htb-targets" Scenario.ssh_and_web
           "10.10.10.1" {[ "tcp" := ({["22"; "80"; "443"]} : gset string) ]} "tcp"
           {["22"; "80"; "443"]}).
  - vm_compute. reflexivity.
  - vm_compute. reflexivity.
  - apply (bool_decide_unpack _). vm_compute. exact I.
  - intros p Hp%elem_of_elements. vm_compute in Hp.
    apply list_elem_of_singleton in Hp as ->. split; [discriminate|reflexivity].
Defined.

Lemma nmap_web_only_pair_skipped_witness :
  (forall cmds,
     ThreadedNmap.scan_protocol Scenario.web_ports "htb-targets" "10.10.10.1" "tcp" {["80"]} cmds
     = cmds)
  /\ (forall cmd,
        cmd ∈ ThreadedNmap.build_commands Scenario.web_ports "htb-targets" Scenario.web_only ->
        ~ invocation_of "htb-targets" "10.10.10.1" "tcp" cmd)
  /\ (forall n, (0 < n)%Z ->
        ThreadedNmap.run Scenario.web_ports (PyInt n) "htb-targets" Scenario.web_only
        = ([Mkdir (ThreadedNmap.output "htb-targets");
            PoolMap n (ThreadedNmap.build_commands Scenario.web_ports "htb-targets"
                                                   Scenario.web_only)], Returned)).
Proof.
  apply (nmap_web_only_pair_skipped Scenario.web_ports "htb-targets" Scenario.web_only
           "10.10.10.1" {[ "tcp" := ({["80"]} : gset string) ]} "tcp" {["80"]}).
  - vm_compute. reflexivity.
  - vm_compute. reflexivity.
  - apply (bool_decide_unpack _). vm_compute. exact I.
Defined.

Lemma nmap_output_prefix_and_target_witness :
  exists host pd protocol ports,
    Scenario.ssh_and_web !! host = Some pd /\ pd !! protocol = Some ports
    /\ length (command "htb-targets" "10.10.10.1" "tcp" "22") = 13%nat
    /\ command "htb-targets" "10.10.10.1" "tcp" "22" !! 10%nat = Some "-oA"
    /\ command "htb-targets" "10.10.10.1" "tcp" "22" !! 11%nat
       = Some (ThreadedNmap.output "htb-targets" +:+ "/nmap." +:+ host +:+ "-" +:+ protocol)
    /\ command "htb-targets" "10.10.10.1" "tcp" "22" !! 12%nat = Some host
    /\ last (command "htb-targets" "10.10.10.1" "tcp" "22") = Some host.
Proof.
  apply (nmap_output_prefix_and_target Scenario.web_ports "htb-targets" Scenario.ssh_and_web).
  assert (E : ThreadedNmap.build_commands Scenario.web_ports "htb-targets" Scenario.ssh_and_web
              = [command "htb-targets" "10.10.10.1" "tcp" "22"])
    by (vm_compute; reflexivity).
  rewrite E. left.
Defined.

Lemma negative_threads_coerced_witness :
  ThreadedNmap.run Scenario.web_ports (PyStr "-3") "htb-targets" Scenario.ssh_and_web
  = ([Mkdir (ThreadedNmap.output "htb-targets");
      PoolMap (Z.abs (-3))
        (ThreadedNmap.build_commands Scenario.web_ports "htb-targets" Scenario.ssh_and_web)],
     Returned)
  /\ Z.abs (-3) = (- -3)%Z.
Proof.
  apply (negative_threads_coerced Scenario.web_ports (PyStr "-3") (-3)%Z).
  - reflexivity.
  - lia.
Defined.

Lemma searchsploit_writes_iff_stderr_witness :
  let name := "nmap.10.10.10.155-tcp.xml" in
  let scans := Fs.Dir {[ name := Fs.File [x3c]%byte;
                         "nmap.10.10.10.155-udp.xml" := Fs.File [x3c]%byte ]} in
  let fs := Fs.Dir {[ "htb-targets-nmap-results" := scans ]} in
  let proc_stderr := Scenario.lookup_tool (lookup_argv "htb-targets" name) in
  let result := Searchsploit.result_path "htb-targets" name in
  let trace :=
    [ Run (lookup_argv "htb-targets" name);
      Mkdir "htb-targets-searchsploit-results";
      WriteBytes "htb-targets-searchsploit-results/searchsploit.10.10.10.155-tcp.txt"
                 [x45; x52; x52]%byte;
      Run (lookup_argv "htb-targets" "nmap.10.10.10.155-udp.xml") ] in
  let fs' :=
    Fs.Dir {[ "htb-targets-nmap-results" := scans;
              "htb-targets-searchsploit-results" :=
                Fs.Dir {[ "searchsploit.10.10.10.155-tcp.txt" :=
                            Fs.File [x45; x52; x52]%byte ]} ]} in
  Searchsploit.run_on Scenario.lookup_tool "htb-targets" Scenario.listing fs
  = (trace, fs', Returned)
  /\ (WriteBytes result proc_stderr ∈ trace -> proc_stderr <> [])
  /\ (Returned = Returned -> (proc_stderr <> [] <-> WriteBytes result proc_stderr ∈ trace))
  /\ (proc_stderr = [] ->
      forall fs0, Searchsploit.lookup_on Scenario.lookup_tool "htb-targets" name fs0
                  = ([Run (lookup_argv "htb-targets" name)], fs0, Returned))
  /\ (Returned = Returned -> proc_stderr <> [] ->
      Fs.is_dir (Fs.parts (Searchsploit.output "htb-targets")) fs' = true
      /\ exists name',
           name' ∈ Scenario.listing /\ Searchsploit.glob_match name' = true
           /\ Scenario.lookup_tool (lookup_argv "htb-targets" name') <> []
           /\ Fs.parts (Searchsploit.result_path "htb-targets" name') = Fs.parts result
           /\ Fs.lookup_path (Fs.parts result) fs'
              = Some (Fs.File (Scenario.lookup_tool (lookup_argv "htb-targets" name'))))
  /\ ((forall name', name' ∈ Scenario.listing -> Searchsploit.glob_match name' = true ->
                     Scenario.lookup_tool (lookup_argv "htb-targets" name') = []) ->
      Returned = Returned /\ fs' = fs)
  /\ (Fs.proper (Fs.parts (Searchsploit.output "htb-targets")) ->
      forall fsm,
        Fs.mkdir (Fs.parts (Searchsploit.output "htb-targets")) fs = Ok fsm ->
        (forall name', name' ∈ Scenario.listing -> Searchsploit.glob_match name' = true ->
           PyStr.contains "/" name' = false
           /\ Fs.is_dir (Fs.parts (Searchsploit.result_path "htb-targets" name')) fsm = false) ->
        Returned = Returned).
Proof.
  intros name scans fs proc_stderr result trace fs'.
  assert (Hrun : Searchsploit.run_on Scenario.lookup_tool "htb-targets" Scenario.listing fs
                 = (trace, fs', Returned)) by (vm_compute; reflexivity).
  split; [exact Hrun|].
  apply (searchsploit_writes_iff_stderr Scenario.lookup_tool "htb-targets" Scenario.listing
           name fs trace fs' Returned).
  - left.
  - reflexivity.
  - exact Hrun.
Defined.

Lemma nmap_rerun_directory_exists_witness :
  let trace := (ThreadedNmap.run Scenario.web_ports (PyInt 10) "htb-targets"
                                 Scenario.ssh_and_web).1 in
  let fs1 := Fs.Dir {[ "htb-targets-nmap-results" := Fs.Dir ∅ ]} in
  let fs2 := Fs.Dir {[ "htb-targets-nmap-results" :=
                         Fs.Dir {[ "nmap.10.10.10.1-tcp.xml" := Fs.File [x3c]%byte ]} ]} in
  perform_all trace fs2 = Ok fs2
  /\ (Mkdir (ThreadedNmap.output "htb-targets") ∈ trace ->
      Fs.is_dir (Fs.parts (ThreadedNmap.output "htb-targets")) fs2 = true
      /\ perform (Mkdir (ThreadedNmap.output "htb-targets")) fs2 = Ok fs2).
Proof.
  apply (nmap_rerun_directory_exists Scenario.web_ports (PyInt 10) "htb-targets"
           Scenario.ssh_and_web (Fs.Dir ∅)
           (Fs.Dir {[ "htb-targets-nmap-results" := Fs.Dir ∅ ]})
           [WriteBytes "htb-targets-nmap-results/nmap.10.10.10.1-tcp.xml" [x3c]%byte]).
  - vm_compute. reflexivity.
  - vm_compute. reflexivity.
Defined.

Lemma scenario_two_hosts_commands :
  ThreadedNmap.build_commands Scenario.web_ports "htb-targets" Scenario.two_hosts
  = [ command "htb-targets" "10.10.10.1" "udp" "161";
      command "htb-targets" "10.10.10.1" "tcp" "22";
      command "htb-targets" "10.10.10.2" "tcp" "8080" ].
Proof. vm_compute. reflexivity. Qed.

Lemma pool_bounded_and_joined_witness :
  let jobs := ThreadedNmap.build_commands Scenario.web_ports "htb-targets" Scenario.two_hosts in
  let udp1 := command "htb-targets" "10.10.10.1" "udp" "161" in
  let tcp1 := command "htb-targets" "10.10.10.1" "tcp" "22" in
  let tcp2 := command "htb-targets" "10.10.10.2" "tcp" "8080" in
  let evs := [ Pool.Started udp1; Pool.Started tcp1; Pool.Ended udp1;
               Pool.Started tcp2; Pool.Ended tcp1; Pool.Ended tcp2 ] in
  let s := Pool.State [] [Pool.Stop] [Pool.Exited; Pool.Exited] Pool.Done in
  pool_exec (PoolMap 2 jobs) Scenario.schedule = Some (evs, s)
  /\ ThreadedNmap.run Scenario.web_ports (PyInt 2) "htb-targets" Scenario.two_hosts
     = ([Mkdir (ThreadedNmap.output "htb-targets"); PoolMap 2 jobs], Returned)
  /\ PoolMap 2 jobs = PoolMap 2 jobs
  /\ (forall before after, evs = before ++ after ->
        (Z.of_nat (length (Pool.started before))
         <= Z.of_nat (length (Pool.ended before)) + 2)%Z
        /\ Pool.ended before ⊆+ Pool.started before
        /\ Pool.started before ⊆+ jobs)
  /\ (Pool.at_phase s = Pool.Done ->
        Pool.started evs ≡ₚ jobs /\ Pool.ended evs ≡ₚ jobs)
  /\ (exists sched' evs' s',
        Pool.exec 2 sched' s = Some (evs', s') /\ Pool.at_phase s' = Pool.Done).
Proof.
  intros jobs udp1 tcp1 tcp2 evs s.
  assert (Hex : pool_exec (PoolMap 2 jobs) Scenario.schedule = Some (evs, s))
    by (vm_compute; reflexivity).
  split; [exact Hex|].
  apply (pool_bounded_and_joined Scenario.web_ports (PyInt 2) 2 "htb-targets"
           Scenario.two_hosts (PoolMap 2 jobs) Scenario.schedule evs s).
  - reflexivity.
  - lia.
  - right. left.
  - exact Hex.
Defined.

(** * Further properties *)

(** ** The commands of ThreadedNmap, all of them *)

Lemma map_flat_map {A B C} (g : B -> C) (f : A -> list B) (l : list A) :
  List.map g (flat_map f l) = flat_map (fun x => List.map g (f x)) l.
Proof.
  induction l as [|x l IH]; [done|]. simpl. by rewrite List.map_app, IH.
Qed.

Lemma NoDup_flat_map {A B} (f : A -> list B) (l : list A) :
  NoDup l -> (forall x, x ∈ l -> NoDup (f x)) ->
  (forall x y z, x ∈ l -> y ∈ l -> z ∈ f x -> z ∈ f y -> x = y) ->
  NoDup (flat_map f l).
Proof.
  induction 1 as [|x l Hx Hl IH]; intros Hf Hinj; simpl; [constructor|].
  apply NoDup_app. split; [|split].
  - apply Hf. left.
  - intros z Hz Hz'. apply list_elem_of_In, in_flat_map in Hz' as (y & Hy & Hzy).
    apply list_elem_of_In in Hy, Hzy.
    assert (x = y) as -> by (eapply Hinj; [left|by right|done..]). done.
  - apply IH.
    + intros y Hy. apply Hf. by right.
    + intros y1 y2 z H1 H2. apply Hinj; by right.
Qed.

(** Two strings with tails of the same length agree part by part. *)
Lemma str_app_inj_length s s' t t' :
  s +:+ t = s' +:+ t' -> String.length t = String.length t' -> s = s' /\ t = t'.
Proof.
  revert s'. induction s as [|a s IH]; intros [|a' s'] H Hlen.
  - done.
  - rewrite str_app_nil_l in H. subst t. rewrite str_app_cons in Hlen. simpl in Hlen.
    rewrite str_length_app in Hlen. lia.
  - rewrite str_app_nil_l in H. subst t'. rewrite str_app_cons in Hlen. simpl in Hlen.
    rewrite str_length_app in Hlen. lia.
  - rewrite !str_app_cons in H. injection H as -> H.
    destruct (IH _ H Hlen) as [-> ->]. done.
Qed.

Lemma output_prefix_inj tf host protocol host' protocol' :
  transport protocol -> transport protocol' ->
  output_prefix tf host protocol = output_prefix tf host' protocol' ->
  host = host' /\ protocol = protocol'.
Proof.
  intros Hp Hp' H. unfold output_prefix in H.
  do 2 apply String.app_inj in H.
  apply str_app_inj_length in H as [-> H].
  - split; [done|]. by apply String.app_inj in H.
  - by destruct Hp as [-> | ->], Hp' as [-> | ->].
Qed.

Section AllCommands.

Context (web_ports : gset string).

Local Abbreviation build_commands := (ThreadedNmap.build_commands web_ports).

(** Where a command of the run comes from. *)
Lemma command_origin tf d cmd :
  cmd ∈ build_commands tf d ->
  exists host pd protocol ports,
    d !! host = Some pd /\ pd !! protocol = Some ports
    /\ cmd = command tf host protocol (port_list web_ports ports)
    /\ port_list web_ports ports <> EmptyString.
Proof.
  rewrite build_commands_added. intros Hin.
  apply list_elem_of_In, in_flat_map in Hin as ([host pd] & Hd & Hin).
  apply in_flat_map in Hin as ([protocol ports] & Hpd & Hin).
  apply list_elem_of_In, elem_of_map_to_list in Hd, Hpd.
  apply list_elem_of_In, added_command in Hin as [-> Hne].
  by exists host, pd, protocol, ports.
Qed.

Lemma command_of_entry tf d host pd protocol ports :
  d !! host = Some pd -> pd !! protocol = Some ports ->
  port_list web_ports ports <> EmptyString ->
  command tf host protocol (port_list web_ports ports) ∈ build_commands tf d.
Proof.
  intros Hd Hpd Hne. rewrite build_commands_added.
  apply list_elem_of_In, in_flat_map. exists (host, pd). split.
  { by apply list_elem_of_In, elem_of_map_to_list. }
  apply in_flat_map. exists (protocol, ports). split.
  { by apply list_elem_of_In, elem_of_map_to_list. }
  unfold added. destruct (String.eqb_spec (port_list web_ports ports) EmptyString); [done|].
  by left.
Qed.

(** X1: no web port is ever handed to nmap.  When the ports of the map are
    port strings (not empty, no comma), the list after [-p] of every command,
    read back, holds ports of the pair only and none of [web_ports]. *)
Theorem nmap_never_scans_web_port tf d cmd :
  (forall host pd protocol ports p,
     d !! host = Some pd -> pd !! protocol = Some ports -> p ∈ ports -> port_ok p) ->
  cmd ∈ build_commands tf d ->
  exists host pd protocol ports non_web_ports,
    d !! host = Some pd /\ pd !! protocol = Some ports
    /\ last cmd = Some host
    /\ cmd !! 9%nat = Some non_web_ports
    /\ forall p, p ∈ PyStr.split "," non_web_ports -> p ∈ ports /\ p ∉ web_ports.
Proof.
  intros Hok (host & pd & protocol & ports & Hd & Hpd & -> & Hne)%command_origin.
  exists host, pd, protocol, ports, (port_list web_ports ports).
  do 4 (split; [done|]). intros p Hp.
  assert (Hset : ports ∖ web_ports <> ∅).
  { intros E. apply Hne. unfold port_list. by rewrite E, elements_empty. }
  rewrite port_list_split in Hp; [|done|].
  - apply elem_of_elements, elem_of_difference in Hp. tauto.
  - intros q [Hq _]%elem_of_difference. by eapply Hok.
Qed.

(** X2: every command of the run is the fixed argument list of the
    template with its two placeholders filled in: the scan type, [-sT] or
    [-sU], and a port list that is not empty.  The [-n] that the template
    spells after the first placeholder is part of that placeholder and goes
    with it: it is not among the fixed arguments. *)
Theorem nmap_fixed_arguments tf d cmd :
  cmd ∈ build_commands tf d ->
  exists scan_type non_web_ports,
    take 11 cmd = [ "nmap"; "--open"; scan_type; "-sC"; "-T"; "4"; "-sV"; "-Pn";
                    "-p"; non_web_ports; "-oA" ]
    /\ (scan_type = "-sT" \/ scan_type = "-sU")
    /\ non_web_ports <> EmptyString
    /\ ("PLACEHOLDER-IDX-2-n" ∉ take 9 cmd) /\ ("-n" ∉ take 9 cmd).
Proof.
  intros (host & pd & protocol & ports & Hd & Hpd & -> & Hne)%command_origin.
  exists (if String.eqb protocol "tcp" then "-sT" else "-sU"), (port_list web_ports ports).
  split; [done|]. split; [by destruct (String.eqb protocol "tcp"); [left|right]|].
  split; [done|].
  unfold command. cbn [take].
  destruct (String.eqb protocol "tcp");
    split; intros Hin; repeat (apply elem_of_cons in Hin as [Hin|Hin]; [discriminate|]);
    by apply elem_of_nil in Hin.
Qed.

(** X3: the hosts that are scanned are the hosts of the map with an entry
    whose port list, web ports taken out, is not empty. *)
Theorem nmap_scanned_hosts tf d host :
  (exists cmd, cmd ∈ build_commands tf d /\ last cmd = Some host)
  <-> exists pd protocol ports,
        d !! host = Some pd /\ pd !! protocol = Some ports
        /\ port_list web_ports ports <> EmptyString.
Proof.
  split.
  - intros (cmd & (h & pd & protocol & ports & Hd & Hpd & -> & Hne)%command_origin & Hlast).
    injection Hlast as ->. by exists pd, protocol, ports.
  - intros (pd & protocol & ports & Hd & Hpd & Hne).
    exists (command tf host protocol (port_list web_ports ports)).
    split; [by eapply command_of_entry|done].
Qed.

(** X4: with the protocols [tcp] and [udp], no two commands of a run share
    an output prefix: no two scans write to the same files. *)
Theorem nmap_prefixes_distinct tf d :
  (forall host pd protocol ports,
     d !! host = Some pd -> pd !! protocol = Some ports -> transport protocol) ->
  NoDup (prefixes (build_commands tf d)).
Proof.
  intros Htr. unfold prefixes. rewrite build_commands_added, map_flat_map.
  assert (Hadd : forall h p ports z,
            z ∈ List.map (fun cmd : list string => cmd !! 11%nat) (added web_ports tf h p ports) ->
            z = Some (output_prefix tf h p)).
  { intros h p ports z. unfold added.
    destruct (String.eqb _ EmptyString); simpl; [by intros ?%elem_of_nil|].
    by intros ->%list_elem_of_singleton. }
  apply NoDup_flat_map.
  - apply NoDup_map_to_list.
  - intros [h pd] Hd%elem_of_map_to_list. rewrite map_flat_map.
    apply NoDup_flat_map.
    + apply NoDup_map_to_list.
    + intros [p ports] _. unfold added.
      destruct (String.eqb _ EmptyString); simpl; [constructor|apply NoDup_singleton].
    + intros [p ports] [p' ports'] z Hp%elem_of_map_to_list Hp'%elem_of_map_to_list
        ->%Hadd [= Hz]%Hadd.
      apply output_prefix_inj in Hz as [_ ->];
        [|exact (Htr _ _ _ _ Hd Hp)|exact (Htr _ _ _ _ Hd Hp')]. congruence.
  - intros [h pd] [h' pd'] z Hd%elem_of_map_to_list Hd'%elem_of_map_to_list Hz Hz'.
    rewrite map_flat_map in Hz, Hz'.
    apply list_elem_of_In, in_flat_map in Hz as ([p ports] & Hp & Hz).
    apply list_elem_of_In, in_flat_map in Hz' as ([p' ports'] & Hp' & Hz').
    apply list_elem_of_In, elem_of_map_to_list in Hp, Hp'.
    apply list_elem_of_In, Hadd in Hz, Hz'. subst z. injection Hz' as Hz'.
    apply output_prefix_inj in Hz' as [-> _];
      [|exact (Htr _ _ _ _ Hd Hp)|exact (Htr _ _ _ _ Hd' Hp')]. congruence.
Qed.

End AllCommands.

(** ** ThreadedNmap on the threads value and on the tree *)

(** [mkdir] of a path that is a regular file raises [FileExistsError]. *)
Lemma mkdir_on_file p : forall n data,
  Fs.lookup_path p n = Some (Fs.File data) -> Fs.mkdir p n = Raise FileExistsError.
Proof.
  induction p as [|c p IH]; intros [data'|es] data H; simpl in H; try discriminate.
  - done.
  - simpl. destruct (es !! c) as [m|]; [|discriminate]. by rewrite (IH _ _ H).
Qed.

Section ThreadsAndTree.

Context (web_ports : gset string).

Local Abbreviation run := (ThreadedNmap.run web_ports).
Local Abbreviation build_commands := (ThreadedNmap.build_commands web_ports).

(** The run on a tree on which the output directory can be made is the run
    of [run]. *)
Lemma run_on_run threads tf d fs fs1 :
  Fs.mkdir (Fs.parts (ThreadedNmap.output tf)) fs = Ok fs1 ->
  ThreadedNmap.run_on web_ports threads tf d fs
  = ((run threads tf d).1,
     match PyInt.int threads with Ok _ => fs1 | Raise _ => fs end,
     (run threads tf d).2).
Proof.
  intros M. unfold ThreadedNmap.run_on, ThreadedNmap.run. rewrite M.
  destruct (PyInt.int threads) as [n|[]]; try done.
  by destruct (ThreadPoolExecutor (Z.abs n)).
Qed.

(** X5: for a threads value that is [None], a boolean, an integer or a
    string of ASCII characters, in a run on a tree.  The scans are handed to
    a pool exactly when the value converts to an integer other than zero and
    the output directory can be made, and the pool then has as many workers
    as the absolute value says.  The run returns exactly then or when the
    conversion raises [TypeError], the one case in which it logs.  The
    directory is asked for exactly when the value converts, and the tree is
    left as it was or as the making of the directory leaves it. *)
Theorem run_dispatches_iff_nonzero_int threads tf d fs trace fs' ending :
  PyInt.ascii_only threads = true ->
  ThreadedNmap.run_on web_ports threads tf d fs = (trace, fs', ending) ->
  (forall n jobs,
     PoolMap n jobs ∈ trace
     <-> exists z fs1, PyInt.int threads = Ok z /\ z <> 0%Z /\ n = Z.abs z
                       /\ jobs = build_commands tf d
                       /\ Fs.mkdir (Fs.parts (ThreadedNmap.output tf)) fs = Ok fs1)
  /\ (ending = Returned
      <-> PyInt.int threads = Raise TypeError
          \/ exists z fs1, PyInt.int threads = Ok z /\ z <> 0%Z
                           /\ Fs.mkdir (Fs.parts (ThreadedNmap.output tf)) fs = Ok fs1)
  /\ ((exists msg, LogError msg ∈ trace) <-> PyInt.int threads = Raise TypeError)
  /\ (Mkdir (ThreadedNmap.output tf) ∈ trace <-> exists z, PyInt.int threads = Ok z)
  /\ (fs' = fs \/ Fs.mkdir (Fs.parts (ThreadedNmap.output tf)) fs = Ok fs').
Proof.
  intros _. unfold ThreadedNmap.run_on, ThreadPoolExecutor.
  destruct (PyInt.int threads) as [z|e] eqn:E.
  - destruct (Fs.mkdir (Fs.parts (ThreadedNmap.output tf)) fs) as [fs1|e] eqn:M.
    + destruct (Z.leb_spec (Z.abs z) 0) as [Hz|Hz]; intros [= <- <- <-].
      * split; [|split; [|split; [|split]]].
        -- intros n jobs. split.
           ++ by intros [=]%list_elem_of_singleton.
           ++ intros (z' & fs2 & [= <-] & Hne & _). lia.
        -- split; [done|]. intros [[=]|(z' & fs2 & [= <-] & Hne & _)]. lia.
        -- split; [|done]. by intros [msg [=]%list_elem_of_singleton].
        -- split; [by exists z|]. intros _. left.
        -- by right.
      * split; [|split; [|split; [|split]]].
        -- intros n jobs. split.
           ++ intros [[=]|[[= -> ->]|[]%elem_of_nil]%elem_of_cons]%elem_of_cons.
              exists z, fs1. repeat split; [lia|done..].
           ++ intros (z' & fs2 & [= <-] & _ & -> & -> & _). right. left.
        -- split; [|done]. intros _. right. exists z, fs1. split; [done|]. split; [lia|done].
        -- split; [|done].
           by intros [msg [[=]|[[=]|[]%elem_of_nil]%elem_of_cons]%elem_of_cons].
        -- split; [by exists z|]. intros _. left.
        -- by right.
    + intros [= <- <- <-]. split; [|split; [|split; [|split]]].
      * intros n jobs. split.
        -- by intros [=]%list_elem_of_singleton.
        -- by intros (z' & fs2 & _ & _ & _ & _ & [=]).
      * split; [done|]. by intros [[=]|(z' & fs2 & _ & _ & [=])].
      * split; [|done]. by intros [msg [=]%list_elem_of_singleton].
      * split; [by exists z|]. intros _. left.
      * by left.
  - assert (Hpool : forall n jobs, ~ exists (z : Z) (fs1 : Fs.node),
              @Raise Z e = Ok z /\ z <> 0%Z /\ n = Z.abs z /\ jobs = build_commands tf d
              /\ Fs.mkdir (Fs.parts (ThreadedNmap.output tf)) fs = Ok fs1)
      by (by intros n jobs (z & fs1 & [=] & _)).
    destruct e; intros [= <- <- <-].
    { split; [|split; [|split; [|split]]].
      - intros n jobs. split; [by intros [=]%list_elem_of_singleton|].
        intros H. by apply Hpool in H.
      - split; [by left|done].
      - split; [done|]. intros _. eexists. left.
      - split; [by intros [=]%list_elem_of_singleton|by intros [z [=]]].
      - by left. }
    all: split; [|split; [|split; [|split]]];
      [ intros n jobs; split; [by intros ?%elem_of_nil|intros H; by apply Hpool in H]
      | split; [done|by intros [[=]|(z & fs1 & [=] & _)]]
      | split; [by intros [msg ?%elem_of_nil]|done]
      | split; [by intros ?%elem_of_nil|by intros [z [=]]]
      | by left ].
Qed.

(** X6: when the output path is a regular file, asking for the directory
    raises [FileExistsError]: the requests of a run with an integer threads
    value fail at the first one, before any scan. *)
Theorem nmap_output_is_file_fails threads n tf d fs data :
  PyInt.int threads = Ok n ->
  Fs.lookup_path (Fs.parts (ThreadedNmap.output tf)) fs = Some (Fs.File data) ->
  perform_all (run threads tf d).1 fs = Raise FileExistsError.
Proof.
  intros Hint Hfile. rewrite (run_int _ _ _ _ _ Hint).
  destruct (Z.abs n <=? 0)%Z; cbn [fst perform_all perform];
    by rewrite (mkdir_on_file _ _ _ Hfile).
Qed.

(** X7: the requests of a run of ThreadedNmap leave every regular file and
    every directory that is there as it is; the run itself only adds
    directories. *)
Theorem nmap_run_keeps_tree threads tf d fs fs' p :
  perform_all (run threads tf d).1 fs = Ok fs' ->
  (forall data, Fs.lookup_path p fs = Some (Fs.File data) ->
                Fs.lookup_path p fs' = Some (Fs.File data))
  /\ (Fs.is_dir p fs = true -> Fs.is_dir p fs' = true).
Proof.
  intros Hrun. split; [|by eapply perform_all_keeps_dir].
  intros data Hp. revert Hrun. unfold ThreadedNmap.run.
  destruct (PyInt.int threads) as [n|[]]; cbn [fst perform_all perform];
    try (by intros [= <-]).
  destruct (ThreadPoolExecutor (Z.abs n)); cbn [fst perform_all perform];
    destruct (Fs.mkdir _ fs) as [m|] eqn:E; try discriminate;
    intros [= <-]; by eapply mkdir_keeps_file.
Qed.

End ThreadsAndTree.

(** ** Searchsploit, the whole run *)

(** Requests that do not write to [p] keep the file at [p]. *)
Lemma perform_all_keeps_file es p data : forall fs fs',
  perform_all es fs = Ok fs' ->
  (forall path data', WriteBytes path data' ∈ es -> Fs.parts path <> p) ->
  Fs.lookup_path p fs = Some (Fs.File data) ->
  Fs.lookup_path p fs' = Some (Fs.File data).
Proof.
  induction es as [|e es IH]; intros fs fs' H Hw Hp; simpl in H.
  - by injection H as <-.
  - destruct (perform e fs) as [fs1|] eqn:E; [|discriminate].
    eapply IH; [done| |].
    + intros path data' Hin. apply (Hw path data'). by right.
    + destruct e as [msg|dir|file wdata|argv|mw jobs]; simpl in E;
        try (by injection E as <-).
      * by eapply mkdir_keeps_file.
      * eapply write_bytes_other; [done| |done].
        intros ->. by apply (Hw file wdata); [left|].
Qed.

Section WholeLookup.

Context (searchsploit : list string -> list byte).

Local Abbreviation lookup := (Searchsploit.lookup searchsploit).
Local Abbreviation srun := (Searchsploit.run searchsploit).


(** X9: the result directory is asked for only by an entry with a stream
    that is not empty, and no other directory ever is.  When every matching
    entry has an empty stream, the requests of the run leave the tree as it
    is: the result directory is not created. *)
Theorem searchsploit_mkdir_iff_some_stderr tf listing :
  (forall path,
     Mkdir path ∈ (srun tf listing).1
     <-> path = Searchsploit.output tf
         /\ exists name, name ∈ listing /\ Searchsploit.glob_match name = true
                         /\ searchsploit (lookup_argv tf name) <> [])
  /\ ((forall name, name ∈ listing -> Searchsploit.glob_match name = true ->
                    searchsploit (lookup_argv tf name) = []) ->
      forall fs, perform_all (srun tf listing).1 fs = Ok fs).
Proof.
  rewrite run_trace. cbn [fst]. split.
  - intros path. split.
    + intros (name & [Hin Hglob]%filter_In & Hm)%list_elem_of_In%in_flat_map.
      rewrite lookup_cases in Hm.
      destruct (searchsploit (lookup_argv tf name)) as [|b l] eqn:E; simpl in Hm.
      * destruct Hm as [|[]]; done.
      * destruct Hm as [|[[= <-]|[|[]]]]; try done.
        split; [done|]. exists name. rewrite E. by split; [apply list_elem_of_In|].
    + intros [-> (name & Hin & Hglob & Hne)].
      apply list_elem_of_In, in_flat_map. exists name. split.
      * apply filter_In. by split; [apply list_elem_of_In|].
      * rewrite lookup_cases. destruct (searchsploit (lookup_argv tf name)); [done|].
        right. by left.
  - intros Hall fs.
    assert (Hall' : forall name, In name (List.filter Searchsploit.glob_match listing) ->
                                 searchsploit (lookup_argv tf name) = []).
    { intros name [Hin Hglob]%filter_In. by apply Hall; [apply list_elem_of_In|]. }
    clear Hall.
    induction (List.filter Searchsploit.glob_match listing) as [|name l IH]; [done|].
    cbn [flat_map]. rewrite lookup_cases, (Hall' name) by (by left).
    cbn [app perform_all perform]. apply IH. intros name' Hin. apply Hall'. by right.
Qed.

(** X10: Searchsploit replaces its own result files only.  For a target
    file whose result directory is a proper path, and a listing of names of
    a directory: when the requests of a run go through, a regular file at a
    proper path that is not the result file of a matching entry with a
    stream is kept with its content, and every directory stays a
    directory. *)
Theorem searchsploit_keeps_other_files tf listing fs fs' p data :
  Fs.proper (Fs.parts (Searchsploit.output tf)) -> Fs.proper p ->
  (forall name, name ∈ listing -> PyStr.contains "/" name = false) ->
  perform_all (srun tf listing).1 fs = Ok fs' ->
  Fs.lookup_path p fs = Some (Fs.File data) ->
  (forall name, name ∈ listing -> Searchsploit.glob_match name = true ->
                searchsploit (lookup_argv tf name) <> [] ->
                Fs.parts (Searchsploit.result_path tf name) <> p) ->
  Fs.lookup_path p fs' = Some (Fs.File data)
  /\ forall q, Fs.is_dir q fs = true -> Fs.is_dir q fs' = true.
Proof.
  intros _ _ _ Hrun Hp Hres. split; [|intros q; by eapply perform_all_keeps_dir].
  eapply perform_all_keeps_file; [done| |done].
  intros path data' Hin. rewrite run_trace in Hin. cbn [fst] in Hin.
  apply list_elem_of_In, in_flat_map in Hin as (name & [Hin Hglob]%filter_In & Hw).
  rewrite lookup_cases in Hw.
  destruct (searchsploit (lookup_argv tf name)) as [|b l] eqn:E; simpl in Hw.
  - destruct Hw as [|[]]; done.
  - destruct Hw as [|[|[[= <- <-]|[]]]]; try done.
    apply Hres; [by apply list_elem_of_In|done|by rewrite E].
Qed.

End WholeLookup.

(** ** Which entries match, and what their names become *)

Lemma substring_skip_more s t k m :
  substring (String.length s + k) m (s +:+ t) = substring k m t.
Proof. induction s as [|a s IH]; [done|]. rewrite str_app_cons. simpl. by rewrite IH. Qed.

(** A string is its first [k] characters and the rest. *)
Lemma substring_split s : forall k,
  k <= String.length s -> s = substring 0 k s +:+ substring k (String.length s - k) s.
Proof.
  induction s as [|a s IH]; intros [|k] Hk; simpl in *; try lia.
  - done.
  - by rewrite str_app_nil_l, substring_whole.
  - rewrite str_app_cons. f_equal. apply IH. lia.
Qed.

Lemma startswith_inv p : forall s, PyStr.startswith p s = true -> exists r, s = p +:+ r.
Proof.
  induction p as [|a p IH]; intros s H; [by exists s|].
  destruct s as [|b s]; [done|]. simpl in H.
  destruct (Ascii.eqb_spec a b) as [->|]; [|done].
  destruct (IH _ H) as [r ->]. by exists r.
Qed.

Lemma endswith_inv p s : PyStr.endswith p s = true -> exists r, s = r +:+ p.
Proof.
  unfold PyStr.endswith. intros [Hlen Heq]%andb_true_iff.
  apply Nat.leb_le in Hlen. apply String.eqb_eq in Heq.
  exists (substring 0 (String.length s - String.length p) s).
  pose proof (substring_split s (String.length s - String.length p)) as Hsp.
  replace (String.length s - (String.length s - String.length p)) with (String.length p)
    in Hsp by lia.
  rewrite Heq in Hsp. apply Hsp. lia.
Qed.

(** X11: a name matches [nmap*.xml] exactly when it is [nmap], anything,
    [.xml]. *)
Theorem glob_match_iff name :
  Searchsploit.glob_match name = true <-> exists mid, name = "nmap" +:+ mid +:+ ".xml".
Proof.
  unfold Searchsploit.glob_match. split.
  - intros [[Hs He]%andb_true_iff Hlen]%andb_true_iff.
    apply Nat.leb_le in Hlen.
    destruct (startswith_inv _ _ Hs) as [rest ->].
    rewrite str_length_app in Hlen. simpl in Hlen.
    assert (He' : PyStr.endswith ".xml" rest = true).
    { revert He. unfold PyStr.endswith. rewrite str_length_app.
      change (String.length "nmap") with 4. change (String.length ".xml") with 4.
      replace (4 + String.length rest - 4) with (String.length "nmap" + (String.length rest - 4))
        by (simpl; lia).
      rewrite substring_skip_more.
      intros [_ ->]%andb_true_iff. rewrite andb_true_r. apply Nat.leb_le. lia. }
    destruct (endswith_inv _ _ He') as [mid ->]. by exists mid.
  - intros [mid ->]. rewrite startswith_app.
    replace ("nmap" +:+ mid +:+ ".xml") with (("nmap" +:+ mid) +:+ ".xml")
      by (by rewrite str_app_assoc).
    rewrite endswith_app, !str_length_app.
    change (String.length "nmap") with 4. change (String.length ".xml") with 4.
    cbn [andb]. apply Nat.leb_le. lia.
Qed.

(** X12: for every entry that matches, the stem is the name without its
    [.xml], and it begins with [nmap]. *)
Theorem stem_of_match name :
  Searchsploit.glob_match name = true ->
  name = Searchsploit.stem name +:+ ".xml"
  /\ PyStr.startswith "nmap" (Searchsploit.stem name) = true
  /\ 4 <= String.length (Searchsploit.stem name).
Proof.
  intros [mid ->]%glob_match_iff.
  replace ("nmap" +:+ mid +:+ ".xml") with (("nmap" +:+ mid) +:+ ".xml")
    by (by rewrite str_app_assoc).
  rewrite stem_xml by done.
  rewrite startswith_app, str_length_app. simpl. repeat split. lia.
Qed.

(** X13: the naming is not one to one.  For every entry that matches, the
    entry with [nmap.] put in front matches too, is another entry, and has
    the same result file: the later of the two writes replaces the
    earlier. *)
Theorem searchsploit_results_collide tf name :
  Searchsploit.glob_match name = true ->
  Searchsploit.glob_match ("nmap." +:+ name) = true
  /\ "nmap." +:+ name <> name
  /\ Searchsploit.result_path tf ("nmap." +:+ name) = Searchsploit.result_path tf name.
Proof.
  intros Hm. destruct (stem_of_match _ Hm) as (Hname & _ & Hlen).
  set (s := Searchsploit.stem name) in *.
  assert (Hstem : Searchsploit.stem ("nmap." +:+ name) = "nmap." +:+ s).
  { rewrite Hname at 1. rewrite <- str_app_assoc. by apply stem_xml. }
  split; [|split].
  - apply glob_match_iff in Hm as [mid ->]. apply glob_match_iff.
    by exists ("." +:+ "nmap" +:+ mid).
  - intros E. apply (f_equal String.length) in E. rewrite str_length_app in E.
    simpl in E. lia.
  - unfold Searchsploit.result_path. fold s. rewrite Hstem. f_equal. f_equal.
    assert (Ht : Searchsploit.target_of ("nmap." +:+ s) = Searchsploit.target_of s).
    { unfold Searchsploit.target_of, PyStr.replace.
      by rewrite (replace_from_match "n" "map." EmptyString), str_app_nil_l. }
    assert (Hl : PyStr.last_chars 3 ("nmap." +:+ s) = PyStr.last_chars 3 s).
    { unfold PyStr.last_chars. rewrite str_length_app.
      replace (String.length "nmap." + String.length s - 3)
        with (String.length "nmap." + (String.length s - 3)) by lia.
      apply substring_skip_more. }
    by rewrite Ht, Hl.
Qed.

(** ** The result file lands in the result directory *)

Section ResultFile.

Context (searchsploit : list string -> list byte).

(** X14: once the result directory is there, the write of a result file
    does not fail for a missing directory: it goes through, and the file
    holds the stream, unless the path of the result file is a directory. *)
Theorem searchsploit_write_finds_directory tf name fs fs1 :
  PyStr.contains "/" name = false ->
  searchsploit (lookup_argv tf name) <> [] ->
  Fs.mkdir (Fs.parts (Searchsploit.output tf)) fs = Ok fs1 ->
  (exists fs2,
     perform_all (Searchsploit.lookup searchsploit tf name) fs = Ok fs2
     /\ Fs.lookup_path (Fs.parts (Searchsploit.result_path tf name)) fs2
        = Some (Fs.File (searchsploit (lookup_argv tf name))))
  \/ (Fs.is_dir (Fs.parts (Searchsploit.result_path tf name)) fs1 = true
      /\ perform_all (Searchsploit.lookup searchsploit tf name) fs
         = Raise IsADirectoryError).
Proof.
  intros Hname Hne Hmk.
  destruct (result_path_parts tf name Hname) as [file Hparts].
  pose proof (mkdir_is_dir _ _ _ Hmk) as Hdir.
  rewrite lookup_cases.
  destruct (searchsploit (lookup_argv tf name)) as [|b l] eqn:E; [done|].
  cbn [perform_all perform]. rewrite Hmk, Hparts.
  destruct (write_into_dir _ file (b :: l) fs1 Hdir) as [[fs2 Hw]|[Hd Hw]]; rewrite Hw.
  - left. exists fs2. split; [done|]. by eapply write_bytes_lookup.
  - by right.
Qed.

End ResultFile.

(** ** From the scan to the lookup *)

(** The parts of a path without a slash: the path itself. *)
Lemma parts_plain s :
  PyStr.contains "/" s = false -> 2 <= String.length s -> Fs.parts s = [s].
Proof.
  intros Hc Hlen. unfold Fs.parts. rewrite split_no_sep by done.
  assert (Hroot : Fs.root_of s = []).
  { destruct s as [|a s]; [done|]. simpl in Hc. apply orb_false_iff in Hc as [Ha _].
    simpl. destruct a as [[] [] [] [] [] [] [] []]; try done. }
  rewrite Hroot. simpl. unfold Fs.real_part.
  destruct s as [|a [|b s]]; simpl in Hlen; try lia. simpl.
  by destruct (Ascii.eqb a ".").
Qed.

(** X15: the two tasks meet.  For a target file without a slash, the XML
    file that the scan of [(host, protocol)] writes, its output prefix with
    [.xml], matches the pattern of Searchsploit, and it is under this very
    path that Searchsploit hands it to the lookup tool. *)
Theorem scan_file_is_looked_up tf host protocol :
  PyStr.contains "/" tf = false ->
  let name := "nmap." +:+ host +:+ "-" +:+ protocol +:+ ".xml" in
  Searchsploit.glob_match name = true
  /\ lookup_argv tf name
     = ["searchsploit"; "--nmap"; output_prefix tf host protocol +:+ ".xml"].
Proof.
  intros Htf name. split.
  - apply glob_match_iff. exists ("." +:+ host +:+ "-" +:+ protocol).
    unfold name. by rewrite !str_app_assoc.
  - unfold lookup_argv, Searchsploit.entry_str. do 2 f_equal.
    assert (Hc : PyStr.contains "/" (ThreadedNmap.output tf) = false).
    { unfold ThreadedNmap.output. by rewrite contains_app, Htf. }
    assert (Hlen : 13 <= String.length (ThreadedNmap.output tf)).
    { unfold ThreadedNmap.output. rewrite str_length_app. simpl. lia. }
    rewrite parts_plain by (done || lia).
    cbn [app Fs.to_str].
    assert (Hr : (String.eqb (ThreadedNmap.output tf) "/"
                  || String.eqb (ThreadedNmap.output tf) "//") = false).
    { apply orb_false_iff. split; apply String.eqb_neq; intros E; rewrite E in Hlen;
        simpl in Hlen; lia. }
    rewrite Hr. unfold PyStr.join, output_prefix, name. cbn [String.concat].
    by rewrite !str_app_assoc.
Qed.

(** ** The worker pool, at every moment *)

Section PoolMore.

Import Pool.

(** X16: no scan is lost and none is run twice.  At every moment of an
    execution of the pool, the jobs not yet submitted, those waiting in the
    queue, those being run and those that are over are, together, the jobs
    of the pool, each once; and the jobs started are those being run and
    those that are over. *)
Theorem pool_jobs_accounted n jobs sched evs s :
  (0 <= n)%Z -> exec n sched (init jobs) = Some (evs, s) ->
  todo s ++ waiting (queue s) ++ busy (workers s) ++ ended evs ≡ₚ jobs
  /\ started evs ≡ₚ busy (workers s) ++ ended evs.
Proof.
  intros Hn Hex. destruct (exec_init_inv n jobs sched evs s Hn Hex) as [_ Hj Hbu _ _ _ _ _].
  split; [|done]. by rewrite <- Hbu.
Qed.

(** X17: the pool does not wait on itself.  An execution on [jobs] has at
    most five moves for each job and two more.  As long as the [with] block
    is not left, a thread of the pool can move, or a scan is running and its
    end is a move: an execution that cannot go on has left the [with]
    block.  A run that does not come back is waiting for a scan. *)
Theorem pool_waits_only_for_scans n jobs sched evs s :
  (1 <= n)%Z -> exec n sched (init jobs) = Some (evs, s) ->
  length sched <= 5 * length jobs + 2
  /\ (at_phase s <> Done ->
      (exists a r, own a = true /\ step n a s = Some r)
      \/ (exists i c, workers s !! i = Some (Busy c)
                      /\ exists s', step n (Finish i) s = Some ([Ended c], s')))
  /\ ((forall a, step n a s = None) -> at_phase s = Done).
Proof.
  intros Hn Hex.
  assert (Hinv : inv n jobs evs s) by (apply (exec_init_inv _ _ sched); [lia|done]).
  split; [|split].
  - apply exec_measure in Hex. unfold measure, init in Hex. simpl in Hex. lia.
  - intros Hph. by apply (inv_progress n jobs evs s).
  - intros Hstuck.
    assert (Hdec : at_phase s = Done \/ at_phase s <> Done)
      by (destruct (at_phase s); (by left) || (by right)).
    destruct Hdec as [Hd|Hd]; [done|].
    destruct (inv_progress n jobs evs s Hn Hinv Hd) as [(a & r & _ & Ha)|(i & c & _ & s' & Ha)];
      by rewrite Hstuck in Ha.
Qed.

End PoolMore.

(** ** The further properties at the scenarios *)

Lemma scenario_ssh_and_web_entry host pd protocol ports :
  Scenario.ssh_and_web !! host = Some pd -> pd !! protocol = Some ports ->
  host = "10.10.10.1" /\ protocol = "tcp" /\ ports = {["22"; "80"; "443"]}.
Proof.
  unfold Scenario.ssh_and_web.
  intros [<- <-]%lookup_singleton_Some [<- <-]%lookup_singleton_Some. done.
Qed.

Lemma scenario_ssh_and_web_commands :
  ThreadedNmap.build_commands Scenario.web_ports "htb-targets" Scenario.ssh_and_web
  = [command "htb-targets" "10.10.10.1" "tcp" "22"].
Proof. vm_compute. reflexivity. Qed.

Lemma nmap_never_scans_web_port_witness :
  exists host pd protocol ports non_web_ports,
    Scenario.ssh_and_web !! host = Some pd /\ pd !! protocol = Some ports
    /\ last (command "htb-targets" "10.10.10.1" "tcp" "22") = Some host
    /\ command "htb-targets" "10.10.10.1" "tcp" "22" !! 9%nat = Some non_web_ports
    /\ forall p, p ∈ PyStr.split "," non_web_ports -> p ∈ ports /\ p ∉ Scenario.web_ports.
Proof.
  apply (nmap_never_scans_web_port Scenario.web_ports "htb-targets" Scenario.ssh_and_web).
  - intros host pd protocol ports p Hd Hpd Hp.
    destruct (scenario_ssh_and_web_entry _ _ _ _ Hd Hpd) as (_ & _ & ->).
    apply elem_of_elements in Hp. vm_compute in Hp.
    repeat (apply elem_of_cons in Hp as [->|Hp]; [by split|]). by apply elem_of_nil in Hp.
  - rewrite scenario_ssh_and_web_commands. left.
Defined.

Lemma nmap_fixed_arguments_witness :
  exists scan_type non_web_ports,
    take 11 (command "htb-targets" "10.10.10.1" "tcp" "22")
    = [ "nmap"; "--open"; scan_type; "-sC"; "-T"; "4"; "-sV"; "-Pn";
        "-p"; non_web_ports; "-oA" ]
    /\ (scan_type = "-sT" \/ scan_type = "-sU")
    /\ non_web_ports <> EmptyString
    /\ ("PLACEHOLDER-IDX-2-n" ∉ take 9 (command "htb-targets" "10.10.10.1" "tcp" "22"))
    /\ ("-n" ∉ take 9 (command "htb-targets" "10.10.10.1" "tcp" "22")).
Proof.
  apply (nmap_fixed_arguments Scenario.web_ports "htb-targets" Scenario.ssh_and_web).
  rewrite scenario_ssh_and_web_commands. left.
Defined.

Lemma scenario_two_hosts_entry host pd protocol ports :
  Scenario.two_hosts !! host = Some pd -> pd !! protocol = Some ports ->
  transport protocol.
Proof.
  unfold Scenario.two_hosts, transport.
  intros [[<- <-]|[_ [<- <-]%lookup_singleton_Some]]%lookup_insert_Some.
  - intros [[<- _]|[_ [<- _]%lookup_singleton_Some]]%lookup_insert_Some; [by left|by right].
  - intros [<- _]%lookup_singleton_Some. by left.
Qed.

Lemma nmap_prefixes_distinct_witness :
  NoDup [ Some (output_prefix "htb-targets" "10.10.10.1" "udp");
          Some (output_prefix "htb-targets" "10.10.10.1" "tcp");
          Some (output_prefix "htb-targets" "10.10.10.2" "tcp") ].
Proof.
  change (NoDup (prefixes [ command "htb-targets" "10.10.10.1" "udp" "161";
                            command "htb-targets" "10.10.10.1" "tcp" "22";
                            command "htb-targets" "10.10.10.2" "tcp" "8080" ])).
  rewrite <- scenario_two_hosts_commands.
  apply (nmap_prefixes_distinct Scenario.web_ports "htb-targets" Scenario.two_hosts).
  exact scenario_two_hosts_entry.
Defined.

Lemma run_dispatches_iff_nonzero_int_witness :
  let jobs := ThreadedNmap.build_commands Scenario.web_ports "htb-targets" Scenario.two_hosts in
  let out := ThreadedNmap.output "htb-targets" in
  let fs := Fs.Dir {[ "htb-targets" := Fs.File [x31]%byte ]} in
  let fs' := Fs.Dir {[ "htb-targets" := Fs.File [x31]%byte;
                       "htb-targets-nmap-results" := Fs.Dir ∅ ]} in
  let trace := [Mkdir out; PoolMap 3 jobs] in
  ThreadedNmap.run_on Scenario.web_ports (PyStr "-3") "htb-targets" Scenario.two_hosts fs
  = (trace, fs', Returned)
  /\ (forall n jobs',
        PoolMap n jobs' ∈ trace
        <-> exists z fs1, PyInt.int (PyStr "-3") = Ok z /\ z <> 0%Z /\ n = Z.abs z
                          /\ jobs' = jobs /\ Fs.mkdir (Fs.parts out) fs = Ok fs1)
  /\ (Returned = Returned
      <-> PyInt.int (PyStr "-3") = Raise TypeError
          \/ exists z fs1, PyInt.int (PyStr "-3") = Ok z /\ z <> 0%Z
                           /\ Fs.mkdir (Fs.parts out) fs = Ok fs1)
  /\ ((exists msg, LogError msg ∈ trace) <-> PyInt.int (PyStr "-3") = Raise TypeError)
  /\ (Mkdir out ∈ trace <-> exists z, PyInt.int (PyStr "-3") = Ok z)
  /\ (fs' = fs \/ Fs.mkdir (Fs.parts out) fs = Ok fs').
Proof.
  intros jobs out fs fs' trace.
  assert (Hrun : ThreadedNmap.run_on Scenario.web_ports (PyStr "-3") "htb-targets"
                   Scenario.two_hosts fs = (trace, fs', Returned))
    by (vm_compute; reflexivity).
  split; [exact Hrun|].
  apply (run_dispatches_iff_nonzero_int Scenario.web_ports (PyStr "-3") "htb-targets"
           Scenario.two_hosts fs trace fs' Returned).
  - reflexivity.
  - exact Hrun.
Defined.

Lemma nmap_output_is_file_fails_witness :
  perform_all (ThreadedNmap.run Scenario.web_ports (PyInt 10) "htb-targets"
                                Scenario.ssh_and_web).1
              (Fs.Dir {[ "htb-targets-nmap-results" := Fs.File [] ]})
  = Raise FileExistsError.
Proof.
  apply (nmap_output_is_file_fails Scenario.web_ports (PyInt 10) 10 "htb-targets"
           Scenario.ssh_and_web (Fs.Dir {[ "htb-targets-nmap-results" := Fs.File [] ]}) []).
  - reflexivity.
  - vm_compute. reflexivity.
Defined.

Lemma nmap_run_keeps_tree_witness :
  let fs := Fs.Dir {[ "notes" := Fs.File [x41]%byte ]} in
  let fs' := Fs.Dir {[ "notes" := Fs.File [x41]%byte;
                       "htb-targets-nmap-results" := Fs.Dir ∅ ]} in
  (forall data, Fs.lookup_path ["notes"] fs = Some (Fs.File data) ->
                Fs.lookup_path ["notes"] fs' = Some (Fs.File data))
  /\ (Fs.is_dir ["notes"] fs = true -> Fs.is_dir ["notes"] fs' = true).
Proof.
  apply (nmap_run_keeps_tree Scenario.web_ports (PyInt 10) "htb-targets" Scenario.ssh_and_web).
  vm_compute. reflexivity.
Defined.

Lemma searchsploit_keeps_other_files_witness :
  let fs := Fs.Dir {[ "notes" := Fs.File [x41]%byte ]} in
  let fs' := Fs.Dir {[ "notes" := Fs.File [x41]%byte;
                       "htb-targets-searchsploit-results" :=
                         Fs.Dir {[ "searchsploit.10.10.10.155-tcp.txt" :=
                                     Fs.File [x45; x52; x52]%byte ]} ]} in
  Fs.lookup_path ["notes"] fs' = Some (Fs.File [x41]%byte)
  /\ forall q, Fs.is_dir q fs = true -> Fs.is_dir q fs' = true.
Proof.
  apply (searchsploit_keeps_other_files Scenario.lookup_tool "htb-targets" Scenario.listing).
  - repeat constructor; discriminate.
  - repeat constructor; discriminate.
  - intros name Hin. unfold Scenario.listing in Hin.
    repeat (apply elem_of_cons in Hin as [->|Hin]; [reflexivity|]).
    by apply elem_of_nil in Hin.
  - vm_compute. reflexivity.
  - reflexivity.
  - intros name Hin _ _. unfold Scenario.listing in Hin.
    repeat (apply elem_of_cons in Hin as [->|Hin]; [vm_compute; discriminate|]).
    by apply elem_of_nil in Hin.
Defined.

Lemma stem_of_match_witness :
  "nmap.10.10.10.155-tcp.xml" = Searchsploit.stem "nmap.10.10.10.155-tcp.xml" +:+ ".xml"
  /\ PyStr.startswith "nmap" (Searchsploit.stem "nmap.10.10.10.155-tcp.xml") = true
  /\ 4 <= String.length (Searchsploit.stem "nmap.10.10.10.155-tcp.xml").
Proof. apply (stem_of_match "nmap.10.10.10.155-tcp.xml"). reflexivity. Defined.

Lemma searchsploit_results_collide_witness :
  Searchsploit.glob_match ("nmap." +:+ "nmap.10.10.10.155-tcp.xml") = true
  /\ "nmap." +:+ "nmap.10.10.10.155-tcp.xml" <> "nmap.10.10.10.155-tcp.xml"
  /\ Searchsploit.result_path "htb-targets" ("nmap." +:+ "nmap.10.10.10.155-tcp.xml")
     = Searchsploit.result_path "htb-targets" "nmap.10.10.10.155-tcp.xml".
Proof.
  apply (searchsploit_results_collide "htb-targets" "nmap.10.10.10.155-tcp.xml"). reflexivity.
Defined.

Lemma searchsploit_write_finds_directory_witness :
  let name := "nmap.10.10.10.155-tcp.xml" in
  let fs1 := Fs.Dir {[ "htb-targets-searchsploit-results" := Fs.Dir ∅ ]} in
  (exists fs2,
     perform_all (Searchsploit.lookup Scenario.lookup_tool "htb-targets" name) (Fs.Dir ∅)
     = Ok fs2
     /\ Fs.lookup_path (Fs.parts (Searchsploit.result_path "htb-targets" name)) fs2
        = Some (Fs.File (Scenario.lookup_tool (lookup_argv "htb-targets" name))))
  \/ (Fs.is_dir (Fs.parts (Searchsploit.result_path "htb-targets" name)) fs1 = true
      /\ perform_all (Searchsploit.lookup Scenario.lookup_tool "htb-targets" name) (Fs.Dir ∅)
         = Raise IsADirectoryError).
Proof.
  apply (searchsploit_write_finds_directory Scenario.lookup_tool "htb-targets"
           "nmap.10.10.10.155-tcp.xml" (Fs.Dir ∅)).
  - reflexivity.
  - vm_compute. discriminate.
  - vm_compute. reflexivity.
Defined.

Lemma result_path_plain_host_witness :
  let name := "nmap." +:+ "10.10.10.155" +:+ "-" +:+ "tcp" +:+ ".xml" in
  Searchsploit.stem name = "nmap." +:+ "10.10.10.155" +:+ "-" +:+ "tcp"
  /\ Searchsploit.target_of (Searchsploit.stem name) = "10.10.10.155"
  /\ spec_target_of (Searchsploit.stem name) = "10.10.10.155"
  /\ Searchsploit.result_path "htb-targets" name
     = Searchsploit.output "htb-targets" +:+ "/searchsploit." +:+ "10.10.10.155" +:+ "-"
         +:+ "tcp" +:+ ".txt"
  /\ spec_result_path "htb-targets" name = Searchsploit.result_path "htb-targets" name.
Proof.
  apply (result_path_plain_host "htb-targets" "10.10.10.155" "tcp").
  - reflexivity.
  - reflexivity.
  - by left.
Defined.

Lemma scan_file_is_looked_up_witness :
  let name := "nmap." +:+ "10.10.10.1" +:+ "-" +:+ "tcp" +:+ ".xml" in
  Searchsploit.glob_match name = true
  /\ lookup_argv "htb-targets" name
     = ["searchsploit"; "--nmap"; output_prefix "htb-targets" "10.10.10.1" "tcp" +:+ ".xml"].
Proof. apply (scan_file_is_looked_up "htb-targets" "10.10.10.1" "tcp"). reflexivity. Defined.

Lemma pool_jobs_accounted_witness :
  let a := ["nmap"; "10.10.10.1"] in
  let b := ["nmap"; "10.10.10.2"] in
  let c := ["nmap"; "10.10.10.3"] in
  let d := ["nmap"; "10.10.10.4"] in
  let s := Pool.State [d] [Pool.Work c] [Pool.Busy b] Pool.Mapping in
  let evs := [Pool.Started a; Pool.Ended a; Pool.Started b] in
  Pool.todo s ++ Pool.waiting (Pool.queue s) ++ Pool.busy (Pool.workers s) ++ Pool.ended evs
  ≡ₚ [a; b; c; d]
  /\ Pool.started evs ≡ₚ Pool.busy (Pool.workers s) ++ Pool.ended evs.
Proof.
  intros a b c d s evs.
  apply (pool_jobs_accounted 1 [a; b; c; d]
           [Pool.Submit true; Pool.Take 0; Pool.Finish 0; Pool.Submit false; Pool.Take 0;
            Pool.Submit false]).
  - lia.
  - vm_compute. reflexivity.
Defined.

Lemma pool_waits_only_for_scans_witness :
  let a := ["nmap"; "10.10.10.1"] in
  let sched := [Pool.Submit true; Pool.Take 0; Pool.Shutdown] in
  let s := Pool.State [] [Pool.Stop] [Pool.Busy a] Pool.Joining in
  length sched <= 5 * length [a] + 2
  /\ (Pool.at_phase s <> Pool.Done ->
      (exists a' r, Pool.own a' = true /\ Pool.step 1 a' s = Some r)
      \/ (exists i c, Pool.workers s !! i = Some (Pool.Busy c)
                      /\ exists s', Pool.step 1 (Pool.Finish i) s = Some ([Pool.Ended c], s')))
  /\ ((forall a', Pool.step 1 a' s = None) -> Pool.at_phase s = Pool.Done).
Proof.
  intros a sched s.
  apply (pool_waits_only_for_scans 1 [a] sched [Pool.Started a] s).
  - lia.
  - vm_compute. reflexivity.
Defined.
